(** * Cursor-paginated collection of video identifiers

    A shallow embedding of the pagination loop of
    [Youtube Data Exploration/Youtube Data Scraper.py] (lines 18-35):

<<
    video_ids = []
    next_page_token = None
    while True:
        playlistitems_response = youtube.playlistItems().list(
            part='contentDetails', playlistId=playlist_id,
            pageToken=next_page_token).execute()
        for item in playlistitems_response['items']:
            video_ids.append(item['contentDetails']['videoId'])
        next_page_token = playlistitems_response.get('nextPageToken')
        if not next_page_token:
            break
>>

    The remote service is a parameter: a state type [Srv] and a function
    [execute] that, from the service state and the [pageToken] argument,
    gives the next service state and either an exception or a response.
    The loop is a transition function on configurations ([iteration]);
    [run n] is the configuration after at most [n] trips round the loop.
    A configuration carries, besides the two variables of the script, a log
    of the calls made so far; the script never reads it. *)

From stdpp Require Import base tactics option list strings gmap.
From Stdlib Require Import Lia.

(** ** Data *)

(** [item['contentDetails']['videoId']] *)
Record ContentDetails := { videoId : string }.
Record Item := { contentDetails : ContentDetails }.

(** The response dictionary: the list under ['items'] and what
    [.get('nextPageToken')] gives, [None] when the key is missing. *)
Record Page := {
  items : list Item;
  nextPageToken : option string
}.

(** What [.execute()] does: raise, or return a response. A response
    without ['items'], or with a record that lacks ['contentDetails'] or
    ['videoId'], makes lines 28-29 raise [KeyError], which nothing catches
    either: as far as the outcome of the script goes, [Raise] stands for
    that case too, and [Page] for the responses that have the keys. *)
Inductive reply (Exn : Type) : Type :=
| Raise (e : Exn)
| Reply (p : Page).
Arguments Raise {Exn} e.
Arguments Reply {Exn} p.

(** One logged call: the [pageToken] argument and what came back. *)
Record call (Exn : Type) : Type := Call {
  pageToken : option string;
  response : reply Exn
}.
Arguments Call {Exn} _ _.
Arguments pageToken {Exn} _.
Arguments response {Exn} _.

(** Where the script is: in the loop, past the [break], or unwound by an
    exception that nothing catches. *)
Inductive phase (Exn : Type) : Type :=
| FETCHING
| DONE
| RAISED (e : Exn).
Arguments FETCHING {Exn}.
Arguments DONE {Exn}.
Arguments RAISED {Exn} e.

(** What the code after the loop gets: the list, or nothing but the
    exception. The script has no [try]: an exception raised in the loop
    ends it there, and line 38, [print(video_ids)], is not reached. *)
Inductive outcome (Exn : Type) : Type :=
| Returned (ids : list string)
| UpstreamError (e : Exn).
Arguments Returned {Exn} ids.
Arguments UpstreamError {Exn} e.

(** Python truth value of what [.get('nextPageToken')] gives: [None] and
    the empty string are false, every other string is true. *)
Definition truthy (v : option string) : bool :=
  match v with
  | Some (String _ _) => true
  | Some EmptyString => false
  | None => false
  end.

(** [for item in page['items']: video_ids.append(item[...][...])] *)
Definition append_ids (video_ids : list string) (its : list Item) : list string :=
  fold_left (fun acc it => acc ++ [videoId (contentDetails it)]) its video_ids.

(** The identifiers of a page, in the order of its records. *)
Definition page_ids (p : Page) : list string :=
  map (fun it => videoId (contentDetails it)) (items p).

(** ** The loop *)

Section Loop.
Context {Exn Srv : Type}.
Variable execute : Srv -> option string -> Srv * reply Exn.

Record config : Type := Config {
  pc : phase Exn;
  video_ids : list string;
  next_page_token : option string;
  srv : Srv;
  calls : list (call Exn)
}.

(** Lines 18-19. *)
Definition init (s : Srv) : config :=
  {| pc := FETCHING; video_ids := []; next_page_token := None;
     srv := s; calls := [] |}.

(** Lines 21-35: one trip round the loop. Outside the loop nothing
    moves. *)
Definition iteration (c : config) : config :=
  match pc c with
  | FETCHING =>
      let '(s', r) := execute (srv c) (next_page_token c) in
      let log := calls c ++ [Call (next_page_token c) r] in
      match r with
      | Raise e =>
          {| pc := RAISED e; video_ids := video_ids c;
             next_page_token := next_page_token c;
             srv := s'; calls := log |}
      | Reply p =>
          {| pc := if truthy (nextPageToken p) then FETCHING else DONE;
             video_ids := append_ids (video_ids c) (items p);
             next_page_token := nextPageToken p;
             srv := s'; calls := log |}
      end
  | DONE | RAISED _ => c
  end.

Definition run (n : nat) (s : Srv) : config := Nat.iter n iteration (init s).

Definition result (c : config) : option (outcome Exn) :=
  match pc c with
  | FETCHING => None
  | DONE => Some (Returned (video_ids c))
  | RAISED e => Some (UpstreamError e)
  end.

(** The collector with an iteration budget: [None] while the loop is
    still running after [fuel] trips. *)
Definition collect (fuel : nat) (s : Srv) : option (outcome Exn) :=
  result (run fuel s).

Definition call_count (fuel : nat) (s : Srv) : nat :=
  length (calls (run fuel s)).

(** The service, driven from state [s] with first argument [tok] and then
    with each page's own token, answers with the pages [ps] in turn. *)
Fixpoint serves (s : Srv) (tok : option string) (ps : list Page) : Prop :=
  match ps with
  | [] => True
  | p :: ps' =>
      exists s', execute s tok = (s', Reply p) /\ serves s' (nextPageToken p) ps'
  end.

(** The service state reached by replaying the logged arguments. *)
Definition replay (s : Srv) (log : list (call Exn)) : Srv :=
  fold_left (fun st c => fst (execute st (pageToken c))) log s.
End Loop.

Arguments config : clear implicits.
Arguments Config {Exn Srv} _ _ _ _ _.

(** The pages among the logged responses, in call order. *)
Definition pages_of {Exn} (log : list (call Exn)) : list Page :=
  omap (fun c => match response c with Reply p => Some p | Raise _ => None end) log.

(** The log entry records a page whose token sends the loop round again. *)
Definition continuing {Exn} (c : call Exn) : Prop :=
  exists p, response c = Reply p /\ truthy (nextPageToken p) = true.

(** The value of [next_page_token] that a log leaves behind: the token of
    the last page in it, [None] (line 19) when there is none. *)
Definition cursor {Exn} (log : list (call Exn)) : option string :=
  match last (pages_of log) with
  | Some p => nextPageToken p
  | None => None
  end.

(** What a sequence of replies amounts to for the code after the loop: read
    off the last reply, with the identifiers of every page before it. *)
Definition outcome_of {Exn} (rs : list (reply Exn)) : option (outcome Exn) :=
  match last rs with
  | None => None
  | Some (Raise e) => Some (UpstreamError e)
  | Some (Reply p) =>
      if truthy (nextPageToken p) then None
      else Some (Returned
                   (concat (map page_ids
                      (omap (fun r => match r with
                                      | Reply q => Some q
                                      | Raise _ => None
                                      end) rs))))
  end.

(** ** Services to run the loop against *)

(** A service that answers from a script, one reply per call, whatever the
    argument; once the script is used up it raises. *)
Definition scripted (s : list (reply string)) (tok : option string)
  : list (reply string) * reply string :=
  match s with
  | [] => ([], Raise "exhausted"%string)
  | r :: rest => (rest, r)
  end.

(** A service without state: the reply is a function of the argument. *)
Definition stateless {Exn} (f : option string -> reply Exn)
  (s : nat) (tok : option string) : nat * reply Exn :=
  (S s, f tok).

Definition item (id : string) : Item :=
  {| contentDetails := {| videoId := id |} |}.

Definition page (ids : list string) (tok : option string) : Page :=
  {| items := map item ids; nextPageToken := tok |}.

(** Two pages: the first names its successor. *)
Definition two_pages : list (reply string) :=
  [Reply (page ["a"; "b"]%string (Some "t1"%string));
   Reply (page ["c"]%string None)].

(** A single empty page. *)
Definition one_empty_page : list (reply string) :=
  [Reply (page [] None)].

(** Two pages that share an identifier. *)
Definition overlapping_pages : list (reply string) :=
  [Reply (page ["abc"; "x"]%string (Some "t1"%string));
   Reply (page ["abc"]%string None)].

(** The first page has the key [nextPageToken], bound to the empty string. *)
Definition empty_token_pages : list (reply string) :=
  [Reply (page ["a"]%string (Some ""%string));
   Reply (page ["b"]%string None)].

(** The second call raises. *)
Definition failing_second : list (reply string) :=
  [Reply (page ["a"]%string (Some "t1"%string));
   Raise "quotaExceeded"%string;
   Reply (page ["b"]%string None)].

(** Every page names a successor. *)
Definition endless (tok : option string) : reply string :=
  Reply (page ["v"]%string (Some "next"%string)).

(** Every page has the key, bound to the empty string. *)
Definition always_empty_token (tok : option string) : reply string :=
  Reply (page [] (Some ""%string)).

(** Pages keyed by token, as the remote API serves them. *)
Definition keyed (tok : option string) : reply string :=
  match tok with
  | None => Reply (page ["a"; "b"]%string (Some "t1"%string))
  | Some "t1"%string => Reply (page ["c"]%string None)
  | Some _ => Raise "invalidPageToken"%string
  end.

(** ** Invariants of the log *)

Section Invariants.
Context {Exn Srv : Type}.
Variable execute : Srv -> option string -> Srv * reply Exn.

(** How the log looks in each phase after [n] trips: one continuing page
    per trip while in the loop; the same closed by a page that stops the
    loop, or by an exception, once out of it. *)
Definition log_shape (n : nat) (c : config Exn Srv) : Prop :=
  length (calls c) <= n /\
  match pc c with
  | FETCHING => Forall continuing (calls c) /\ length (calls c) = n
  | DONE =>
      exists l x p, calls c = l ++ [x] /\ Forall continuing l /\
        response x = Reply p /\ truthy (nextPageToken p) = false
  | RAISED e =>
      exists l x, calls c = l ++ [x] /\ Forall continuing l /\
        response x = Raise e
  end.

(** The variables of the script are accounted for by the log: the list
    is the pages' identifiers, the token is the last page's, the service
    was moved by the logged calls only, and each call was made with the
    token that the log before it left behind. *)
Definition log_accounts (s0 : Srv) (c : config Exn Srv) : Prop :=
  video_ids c = concat (map page_ids (pages_of (calls c)))
  /\ next_page_token c = cursor (calls c)
  /\ srv c = replay execute s0 (calls c)
  /\ (forall i x, calls c !! i = Some x ->
        pageToken x = cursor (take i (calls c))).

(** Two configurations that differ at most in the state of the service. *)
Definition same_view (c1 c2 : config Exn Srv) : Prop :=
  pc c1 = pc c2 /\ video_ids c1 = video_ids c2
  /\ next_page_token c1 = next_page_token c2 /\ calls c1 = calls c2.
End Invariants.

(** ** Around the loop: the rest of the script

    Lines 13-15 look up the playlist that the loop reads, line 38 prints
    what the loop collected, and lines 49-77 write one CSV row per video
    identifier. *)

(** The exceptions these lines can end with: one raised by [.execute()],
    [l[0]] on an empty list, [d[key]] on a dictionary without [key], and
    the complaint of [csv.DictWriter] about a key that is no field name. *)
Inductive pyexn (Exn : Type) : Type :=
| ApiError (e : Exn)
| IndexError
| KeyError (key : string)
| ValueError.
Arguments ApiError {Exn} e.
Arguments IndexError {Exn}.
Arguments KeyError {Exn} key.
Arguments ValueError {Exn}.

(** Statements in sequence, the first exception ending them. *)
#[global] Instance sum_bind {E} : MBind (sum E) := fun A B f m =>
  match m with
  | inl e => inl e
  | inr a => f a
  end.

(** [d[key]] on a dictionary of strings. *)
Definition getitem {Exn} (d : gmap string string) (key : string)
  : pyexn Exn + string :=
  match d !! key with
  | Some v => inr v
  | None => inl (KeyError key)
  end.

Module Channels.
(** The response of [channels().list(part='contentDetails', id=...)], as
    far as line 15 reads it. *)
Record RelatedPlaylists := { uploads : string }.
Record ContentDetails := { relatedPlaylists : RelatedPlaylists }.
Record Item := { contentDetails : ContentDetails }.
Record Response := { items : list Item }.

(** Line 15:
    [playlist_response['items'][0]['contentDetails']['relatedPlaylists']['uploads']] *)
Definition playlist_id {Exn} (playlist_response : Response) : pyexn Exn + string :=
  match items playlist_response with
  | [] => inl IndexError
  | it :: _ => inr (uploads (relatedPlaylists (contentDetails it)))
  end.
End Channels.

Section Harvest.
Context {Exn Srv : Type}.
(** [youtube.channels().list(part='contentDetails', id=channel_id).execute()] *)
Variable channels_list : Srv -> string -> Srv * (Exn + Channels.Response).
(** [youtube.playlistItems().list(part='contentDetails', playlistId=...,
    pageToken=...).execute()] *)
Variable playlistitems_list : Srv -> string -> option string -> Srv * reply Exn.

(** Where lines 13-35 are after [fuel] trips round the loop: ended by an
    exception before the loop, or in (or past) the loop with playlist [pid]. *)
Inductive harvested : Type :=
| LookupRaised (e : pyexn Exn)
| Reached (pid : string) (c : config Exn Srv).

Definition harvest (fuel : nat) (channel_id : string) (s : Srv) : harvested :=
  let '(s', r) := channels_list s channel_id in
  match r with
  | inl e => LookupRaised (ApiError e)
  | inr playlist_response =>
      match Channels.playlist_id playlist_response with
      | inl e => LookupRaised e
      | inr pid =>
          Reached pid (run (fun st tok => playlistitems_list st pid tok) fuel s')
      end
  end.

(** Line 38, [print(video_ids)]: what is printed, if the line is reached. *)
Definition printed (h : harvested) : option (list string) :=
  match h with
  | LookupRaised _ => None
  | Reached _ c =>
      match result c with
      | Some (Returned ids) => Some ids
      | Some (UpstreamError _) | None => None
      end
  end.
End Harvest.

Module Videos.
(** The response of [videos().list(part='snippet,statistics', id=...)]: a
    list of resources, each with the two dictionaries asked for. *)
Record Video := {
  snippet : gmap string string;
  statistics : gmap string string
}.
Record Response := { items : list Video }.

(** Line 54. *)
Definition fieldnames : list string :=
  ["title"; "upload_date"; "views"; "likes"; "comments"]%string.

(** [video_response['items'][0]] *)
Definition first_item {Exn} (video_response : Response) : pyexn Exn + Video :=
  match items video_response with
  | [] => inl IndexError
  | v :: _ => inr v
  end.

(** Lines 64-75: the five look-ups, in the order of the script, and the
    dictionary handed to [writer.writerow]. *)
Definition extract {Exn} (video_response : Response)
  : pyexn Exn + gmap string string :=
  video_title ← (v ← first_item video_response; getitem (snippet v) "title");
  upload_date ← (v ← first_item video_response; getitem (snippet v) "publishedAt");
  views ← (v ← first_item video_response; getitem (statistics v) "viewCount");
  likes ← (v ← first_item video_response; getitem (statistics v) "likeCount");
  comments ← (v ← first_item video_response; getitem (statistics v) "commentCount");
  inr ({[ "title" := video_title; "upload_date" := upload_date;
          "views" := views; "likes" := likes;
          "comments" := comments ]} : gmap string string)%string.

(** [csv.DictWriter(csv_file, fieldnames).writerow(rowdict)], with the
    defaults of the library: a key that is no field name is an error, a
    field name without key gives the empty string, and the row has its
    fields in the order of [fieldnames]. The row is kept as the list of
    its fields; quoting and line ends are left to the library. *)
Definition writerow {Exn} (rowdict : gmap string string)
  : pyexn Exn + list string :=
  if decide (dom rowdict ⊆ list_to_set fieldnames)
  then inr (map (fun k => default ""%string (rowdict !! k)) fieldnames)
  else inl ValueError.

Section Loop.
Context {Exn Srv : Type}.
(** [youtube.videos().list(part='snippet,statistics', id=video_id).execute()] *)
Variable videos_list : Srv -> string -> Srv * (Exn + Response).

(** The file as rows written so far, the identifiers asked for so far, and
    the service. *)
Record state : Type := State {
  csv_file : list (list string);
  requested : list string;
  remote : Srv
}.

(** Lines 62-75 for one [video_id]: the state after it, and the exception
    if one ended it. The row is written once all five fields are there. *)
Definition body (video_id : string) (st : state) : state * option (pyexn Exn) :=
  let '(s', r) := videos_list (remote st) video_id in
  let asked := requested st ++ [video_id] in
  match r with
  | inl e => (State (csv_file st) asked s', Some (ApiError e))
  | inr video_response =>
      match extract video_response ≫= writerow with
      | inl e => (State (csv_file st) asked s', Some e)
      | inr row => (State (csv_file st ++ [row]) asked s', None)
      end
  end.

(** Line 61: [for video_id in video_ids]. *)
Fixpoint for_each (video_ids : list string) (st : state)
  : state * option (pyexn Exn) :=
  match video_ids with
  | [] => (st, None)
  | video_id :: rest =>
      match body video_id st with
      | (st', None) => for_each rest st'
      | (st', Some e) => (st', Some e)
      end
  end.

(** What lines 53-77 leave behind: the file (its rows stay when an
    exception closes the [with] block), the requests made, what was
    printed, and the exception if there was one. *)
Record report : Type := Report {
  file : list (list string);
  requests : list string;
  stdout : list string;
  raised : option (pyexn Exn);
  remote_after : Srv
}.

(** Lines 53-77. Opening with [mode='w'] empties the file; that the file
    can be opened and written is taken for granted. *)
Definition export (video_ids : list string) (s : Srv) : report :=
  let '(st, err) := for_each video_ids (State [fieldnames] [] s) in
  Report (csv_file st) (requested st)
         (match err with
          | None => ["CSV file created successfully!"%string]
          | Some _ => []
          end)
         err (remote st).

(** The service, asked for [ids] in turn from state [s], answers with
    [rs] and is left in state [s']. *)
Fixpoint answers (s : Srv) (ids : list string) (rs : list Response) (s' : Srv)
  : Prop :=
  match ids, rs with
  | [], [] => s' = s
  | id :: ids', r :: rs' =>
      exists s1, videos_list s id = (s1, inr r) /\ answers s1 ids' rs' s'
  | _, _ => False
  end.
End Loop.
Arguments state : clear implicits.
Arguments report : clear implicits.

(** A response with all that lines 64-68 read. *)
Definition complete (r : Response) : Prop :=
  exists v vs, items r = v :: vs
    /\ is_Some (snippet v !! "title"%string)
    /\ is_Some (snippet v !! "publishedAt"%string)
    /\ is_Some (statistics v !! "viewCount"%string)
    /\ is_Some (statistics v !! "likeCount"%string)
    /\ is_Some (statistics v !! "commentCount"%string).

(** The row of a response: the five values, in the order of the header;
    the empty string stands where a value is missing. *)
Definition row_of (r : Response) : list string :=
  match items r with
  | [] => []
  | v :: _ =>
      [default ""%string (snippet v !! "title"%string);
       default ""%string (snippet v !! "publishedAt"%string);
       default ""%string (statistics v !! "viewCount"%string);
       default ""%string (statistics v !! "likeCount"%string);
       default ""%string (statistics v !! "commentCount"%string)]
  end.


(** A small catalogue of videos to run the export against. *)
Definition video (t d v l c : string) : Video :=
  {| snippet := {[ "title" := t; "publishedAt" := d ]}%string;
     statistics := {[ "viewCount" := v; "likeCount" := l;
                      "commentCount" := c ]}%string |}.

(** A video whose likes are hidden: no [likeCount]. *)
Definition video_without_likes : Video :=
  {| snippet := {[ "title" := "Hidden"; "publishedAt" := "2021-01-01" ]}%string;
     statistics := {[ "viewCount" := "7"; "commentCount" := "0" ]}%string |}.

Definition catalogue (st : nat) (video_id : string) : nat * (string + Response) :=
  (S st,
   if decide (video_id = "v1"%string)
   then inr {| items := [video "One" "2020-01-01" "10" "2" "1"] |}
   else if decide (video_id = "v2"%string)
   then inr {| items := [video "Two" "2020-02-02" "20" "4" "3"] |}
   else if decide (video_id = "hidden"%string)
   then inr {| items := [video_without_likes] |}
   else if decide (video_id = "down"%string)
   then inl "backendError"%string
   else inr {| items := [] |}).
End Videos.

(** A channel service and a playlist service to run lines 13-38 against:
    one channel, whose uploads are the two pages keyed by token. *)
Definition one_channel (st : nat) (channel_id : string)
  : nat * (string + Channels.Response) :=
  (S st,
   if decide (channel_id = "UC1"%string)
   then inr {| Channels.items :=
                 [{| Channels.contentDetails :=
                       {| Channels.relatedPlaylists :=
                            {| Channels.uploads := "UU1"%string |} |} |}] |}
   else inr {| Channels.items := [] |}).

Definition one_playlist (st : nat) (pid : string) (tok : option string)
  : nat * reply string :=
  if decide (pid = "UU1"%string) then stateless keyed st tok
  else (S st, Raise "playlistNotFound"%string).

(** Two pages that name each other. *)
Definition ping_pong (tok : option string) : reply string :=
  match tok with
  | Some "p2"%string => Reply (page ["y"]%string (Some "p1"%string))
  | _ => Reply (page ["x"]%string (Some "p2"%string))
  end.

(** ** Scenarios of the specification, run *)

Example scenario_two_pages :
  collect scripted 2 two_pages = Some (Returned ["a"; "b"; "c"]%string)
  /\ call_count scripted 2 two_pages = 2.
Proof. split; reflexivity. Qed.

Example scenario_one_empty_page :
  collect scripted 1 one_empty_page = Some (Returned [])
  /\ call_count scripted 1 one_empty_page = 1.
Proof. split; reflexivity. Qed.

Example scenario_keyed :
  collect (stateless keyed) 5 0 = Some (Returned ["a"; "b"; "c"]%string)
  /\ map pageToken (calls (run (stateless keyed) 5 0)) = [None; Some "t1"%string].
Proof. split; reflexivity. Qed.

Example scenario_failing_second :
  collect scripted 7 failing_second = Some (UpstreamError "quotaExceeded"%string)
  /\ call_count scripted 7 failing_second = 2.
Proof. split; reflexivity. Qed.

(** ** The inner loop *)

Lemma append_ids_app (acc : list string) (its : list Item) :
  append_ids acc its = acc ++ map (fun it => videoId (contentDetails it)) its.
Proof.
  unfold append_ids. revert acc.
  induction its as [|it its IH]; intros acc; simpl.
  - by rewrite app_nil_r.
  - rewrite IH. by rewrite <- app_assoc.
Qed.

Lemma append_ids_page (acc : list string) (p : Page) :
  append_ids acc (items p) = acc ++ page_ids p.
Proof. apply append_ids_app. Qed.

Lemma page_ids_page ids tok : page_ids (page ids tok) = ids.
Proof.
  unfold page_ids, page, item; simpl.
  induction ids as [|x xs IH]; simpl; [done | by rewrite IH].
Qed.

(** ** Truth values of tokens *)

Lemma truthy_None : truthy None = false.
Proof. reflexivity. Qed.

Lemma truthy_empty : truthy (Some EmptyString) = false.
Proof. reflexivity. Qed.

Lemma truthy_false_iff (v : option string) :
  truthy v = false <-> v = None \/ v = Some EmptyString.
Proof.
  destruct v as [[|a s]|]; simpl; split; intros H; auto;
    try discriminate; destruct H; discriminate.
Qed.

Lemma truthy_true_iff (v : option string) :
  truthy v = true <-> exists s, v = Some s /\ s <> EmptyString.
Proof.
  destruct v as [[|a s]|]; simpl; split; intros H; try discriminate.
  - destruct H as (s & [= <-] & Hs). by destruct Hs.
  - exists (String a s). by split.
  - done.
  - destruct H as (s & [=] & _).
Qed.

(** ** Logs *)

Lemma pages_of_app {Exn} (l1 l2 : list (call Exn)) :
  pages_of (l1 ++ l2) = pages_of l1 ++ pages_of l2.
Proof. unfold pages_of. apply omap_app. Qed.

Lemma pages_of_snoc_reply {Exn} (l : list (call Exn)) tok p :
  pages_of (l ++ [Call tok (Reply p)]) = pages_of l ++ [p].
Proof. by rewrite pages_of_app. Qed.

Lemma pages_of_snoc_raise {Exn} (l : list (call Exn)) tok e :
  pages_of (l ++ [Call tok (Raise e)]) = pages_of l.
Proof. rewrite pages_of_app. simpl. by rewrite app_nil_r. Qed.

Lemma cursor_nil {Exn} : cursor (@nil (call Exn)) = None.
Proof. reflexivity. Qed.

Lemma cursor_snoc_reply {Exn} (l : list (call Exn)) tok p :
  cursor (l ++ [Call tok (Reply p)]) = nextPageToken p.
Proof. unfold cursor. by rewrite pages_of_snoc_reply, last_snoc. Qed.

Lemma cursor_snoc_raise {Exn} (l : list (call Exn)) tok e :
  cursor (l ++ [Call tok (Raise e)]) = cursor l.
Proof. unfold cursor. by rewrite pages_of_snoc_raise. Qed.

(** ** One trip round the loop *)

Section Facts.
Context {Exn Srv : Type}.
Variable execute : Srv -> option string -> Srv * reply Exn.

Local Abbreviation config := (config Exn Srv).
Local Abbreviation iteration := (iteration execute).
Local Abbreviation run := (run execute).
Local Abbreviation collect := (collect execute).
Local Abbreviation call_count := (call_count execute).

Implicit Types (c : config) (s : Srv) (n m fuel : nat) (p : Page).

Lemma iteration_reply c s' p :
  pc c = FETCHING ->
  execute (srv c) (next_page_token c) = (s', Reply p) ->
  iteration c =
    {| pc := if truthy (nextPageToken p) then FETCHING else DONE;
       video_ids := video_ids c ++ page_ids p;
       next_page_token := nextPageToken p;
       srv := s';
       calls := calls c ++ [Call (next_page_token c) (Reply p)] |}.
Proof.
  intros Hpc Hex. unfold iteration.
  rewrite Hpc, Hex. by rewrite append_ids_page.
Qed.

Lemma iteration_raise c s' e :
  pc c = FETCHING ->
  execute (srv c) (next_page_token c) = (s', Raise e) ->
  iteration c =
    {| pc := RAISED e;
       video_ids := video_ids c;
       next_page_token := next_page_token c;
       srv := s';
       calls := calls c ++ [Call (next_page_token c) (Raise e)] |}.
Proof.
  intros Hpc Hex. unfold iteration. by rewrite Hpc, Hex.
Qed.

Lemma iteration_halted c : pc c <> FETCHING -> iteration c = c.
Proof.
  intros H. unfold iteration. by destruct (pc c).
Qed.

(** The three ways a trip from inside the loop can go. *)
Lemma iteration_cases c :
  pc c = FETCHING ->
  (exists s' e, execute (srv c) (next_page_token c) = (s', Raise e))
  \/ (exists s' p, execute (srv c) (next_page_token c) = (s', Reply p)).
Proof.
  intros _. destruct (execute (srv c) (next_page_token c)) as [s' [e|p]] eqn:E;
    [left | right]; eauto.
Qed.

Lemma run_0 s : run 0 s = init s.
Proof. reflexivity. Qed.

Lemma run_S n s : run (S n) s = iteration (run n s).
Proof. reflexivity. Qed.

Lemma iter_halted m c : pc c <> FETCHING -> Nat.iter m iteration c = c.
Proof.
  intros H. induction m as [|m IH]; simpl; [done|].
  rewrite IH. by apply iteration_halted.
Qed.

Lemma run_add n m s : run (m + n) s = Nat.iter m iteration (run n s).
Proof. unfold run. by rewrite Nat.iter_add. Qed.

(** Once out of the loop, more fuel changes nothing. *)
Lemma run_stable n m s :
  pc (run n s) <> FETCHING -> n <= m -> run m s = run n s.
Proof.
  intros H Hle. replace m with ((m - n) + n) by lia.
  rewrite run_add. by apply iter_halted.
Qed.

(** Before the loop is left, every earlier configuration was in it. *)
Lemma run_fetching_before n m s :
  pc (run m s) = FETCHING -> n <= m -> pc (run n s) = FETCHING.
Proof.
  intros Hm Hle.
  destruct (pc (run n s)) eqn:E; [done| |];
    rewrite (run_stable n m s) in Hm by (rewrite ?E; done || lia);
    congruence.
Qed.

(** An invariant of [iteration] that holds at [init] holds all along. *)
Lemma run_ind (P : nat -> config -> Prop) s :
  P 0 (init s) ->
  (forall n c, P n c -> P (S n) (iteration c)) ->
  forall n, P n (run n s).
Proof.
  intros H0 HS n. induction n as [|n IH]; [done|].
  rewrite run_S. by apply HS.
Qed.
End Facts.

(** ** What the log looks like *)

Section LogFacts.
Context {Exn Srv : Type}.
Variable execute : Srv -> option string -> Srv * reply Exn.

Local Abbreviation config := (config Exn Srv).
Local Abbreviation iteration := (iteration execute).
Local Abbreviation run := (run execute).
Local Abbreviation collect := (collect execute).
Local Abbreviation call_count := (call_count execute).

Implicit Types (c : config) (s : Srv) (n m fuel : nat) (p : Page).

Lemma log_shape_init s : log_shape 0 (init s : config).
Proof. split; simpl; [lia | split; [constructor | done]]. Qed.

Lemma log_shape_step n c : log_shape n c -> log_shape (S n) (iteration c).
Proof.
  intros [Hlen Hsh]. destruct (pc c) eqn:Hpc.
  - destruct Hsh as [Hall Hn].
    destruct (iteration_cases execute c Hpc) as [(s' & e & He)|(s' & p & Hp)].
    + rewrite (iteration_raise execute c s' e Hpc He).
      split; simpl; [rewrite length_app; simpl; lia|].
      by exists (calls c), (Call (next_page_token c) (Raise e)).
    + rewrite (iteration_reply execute c s' p Hpc Hp).
      split; simpl; [rewrite length_app; simpl; lia|].
      destruct (truthy (nextPageToken p)) eqn:Ht.
      * split; [|rewrite length_app; simpl; lia].
        apply Forall_app; split; [done|].
        constructor; [|constructor]. by exists p.
      * by exists (calls c), (Call (next_page_token c) (Reply p)), p.
  - rewrite iteration_halted by congruence.
    split; [lia | by rewrite Hpc].
  - rewrite iteration_halted by congruence.
    split; [lia | by rewrite Hpc].
Qed.

Lemma run_shape n s : log_shape n (run n s).
Proof.
  apply (run_ind execute (fun n c => log_shape n c));
    auto using log_shape_init, log_shape_step.
Qed.

Lemma run_calls_le n s : length (calls (run n s)) <= n.
Proof. apply run_shape. Qed.

Lemma run_fetching_calls n s :
  pc (run n s) = FETCHING ->
  Forall continuing (calls (run n s)) /\ length (calls (run n s)) = n.
Proof. intros H. destruct (run_shape n s) as [_ Hsh]. by rewrite H in Hsh. Qed.

(** In every phase, each logged call but the last is a continuing page. *)
Lemma log_shape_init_continuing n c i x :
  log_shape n c -> calls c !! i = Some x -> S i < length (calls c) ->
  continuing x.
Proof.
  intros [_ Hsh] Hi Hlt. destruct (pc c).
  - destruct Hsh as [Hall _]. by eapply Forall_lookup_1.
  - destruct Hsh as (l & y & p & Hc & Hall & _).
    rewrite Hc in Hi, Hlt. rewrite length_app in Hlt; simpl in Hlt.
    rewrite lookup_app_l in Hi by lia. by eapply Forall_lookup_1.
  - destruct Hsh as (l & y & Hc & Hall & _).
    rewrite Hc in Hi, Hlt. rewrite length_app in Hlt; simpl in Hlt.
    rewrite lookup_app_l in Hi by lia. by eapply Forall_lookup_1.
Qed.

(** A logged call that is not a continuing page is the last one, and the
    loop has been left. *)
Lemma log_shape_stop n c i x :
  log_shape n c -> calls c !! i = Some x -> ~ continuing x ->
  length (calls c) = S i /\ pc c <> FETCHING.
Proof.
  intros Hsh Hi Hx.
  assert (i < length (calls c)) by (by eapply lookup_lt_Some).
  split.
  - destruct (decide (S i < length (calls c))) as [Hlt|]; [|lia].
    destruct Hx. by eapply log_shape_init_continuing.
  - intros Hpc. destruct Hsh as [_ Hsh]. rewrite Hpc in Hsh.
    destruct Hsh as [Hall _]. apply Hx. by eapply Forall_lookup_1.
Qed.
End LogFacts.

(** ** What the log accounts for *)

Section Accounting.
Context {Exn Srv : Type}.
Variable execute : Srv -> option string -> Srv * reply Exn.

Local Abbreviation config := (config Exn Srv).
Local Abbreviation iteration := (iteration execute).
Local Abbreviation run := (run execute).

Implicit Types (c : config) (s : Srv) (n m fuel : nat) (p : Page).

Lemma replay_snoc s (log : list (call Exn)) x :
  replay execute s (log ++ [x]) =
  fst (execute (replay execute s log) (pageToken x)).
Proof. unfold replay. by rewrite fold_left_app. Qed.

Lemma lookup_snoc_cursor (log : list (call Exn)) x i y :
  (forall j z, log !! j = Some z -> pageToken z = cursor (take j log)) ->
  pageToken x = cursor log ->
  (log ++ [x]) !! i = Some y ->
  pageToken y = cursor (take i (log ++ [x])).
Proof.
  intros Hlog Hx Hi.
  apply lookup_snoc_Some in Hi as [(Hlt & Hi)|(-> & ->)].
  - rewrite take_app_le by lia. by apply Hlog.
  - by rewrite take_app_length.
Qed.

Lemma log_accounts_init s : log_accounts execute s (init s).
Proof. repeat split; simpl; try done. Qed.

Lemma log_accounts_step s0 c :
  log_accounts execute s0 c -> log_accounts execute s0 (iteration c).
Proof.
  intros (Hids & Htok & Hsrv & Harg).
  destruct (pc c) eqn:Hpc; [|by rewrite iteration_halted by congruence..].
  destruct (iteration_cases execute c Hpc) as [(s' & e & He)|(s' & p & Hp)].
  - rewrite (iteration_raise execute c s' e Hpc He).
    repeat split; simpl.
    + by rewrite pages_of_snoc_raise.
    + by rewrite cursor_snoc_raise.
    + rewrite replay_snoc; simpl. by rewrite <- Hsrv, He.
    + intros i y. by apply lookup_snoc_cursor.
  - rewrite (iteration_reply execute c s' p Hpc Hp).
    repeat split; simpl.
    + rewrite pages_of_snoc_reply, map_app, concat_app; simpl.
      by rewrite app_nil_r, Hids.
    + by rewrite cursor_snoc_reply.
    + rewrite replay_snoc; simpl. by rewrite <- Hsrv, Hp.
    + intros i y. by apply lookup_snoc_cursor.
Qed.

Lemma run_accounts n s : log_accounts execute s (run n s).
Proof.
  apply (run_ind execute (fun _ c => log_accounts execute s c));
    auto using log_accounts_init, log_accounts_step.
Qed.

Lemma run_video_ids n s :
  video_ids (run n s) = concat (map page_ids (pages_of (calls (run n s)))).
Proof. apply run_accounts. Qed.

(** The log only grows, one entry a trip at most. *)
Lemma iteration_calls c :
  calls (iteration c) = calls c
  \/ exists x, calls (iteration c) = calls c ++ [x]
               /\ pageToken x = next_page_token c
               /\ response x = snd (execute (srv c) (next_page_token c)).
Proof.
  destruct (pc c) eqn:Hpc; [|left; by rewrite iteration_halted by congruence..].
  right.
  destruct (iteration_cases execute c Hpc) as [(s' & e & He)|(s' & p & Hp)].
  - rewrite (iteration_raise execute c s' e Hpc He), He; simpl. eauto.
  - rewrite (iteration_reply execute c s' p Hpc Hp), Hp; simpl. eauto.
Qed.

Lemma iteration_video_ids c : video_ids c `prefix_of` video_ids (iteration c).
Proof.
  destruct (pc c) eqn:Hpc; [|by rewrite iteration_halted by congruence..].
  destruct (iteration_cases execute c Hpc) as [(s' & e & He)|(s' & p & Hp)].
  - by rewrite (iteration_raise execute c s' e Hpc He).
  - rewrite (iteration_reply execute c s' p Hpc Hp); simpl.
    by apply prefix_app_r.
Qed.

Lemma run_calls_prefix n m s :
  n <= m -> calls (run n s) `prefix_of` calls (run m s).
Proof.
  induction 1 as [|m Hle IH]; [done|].
  etrans; [exact IH|]. rewrite run_S.
  destruct (iteration_calls (run m s)) as [->|(x & -> & _)];
    [done | by apply prefix_app_r].
Qed.

Lemma run_video_ids_prefix n m s :
  n <= m -> video_ids (run n s) `prefix_of` video_ids (run m s).
Proof.
  induction 1 as [|m Hle IH]; [done|].
  etrans; [exact IH|]. rewrite run_S. apply iteration_video_ids.
Qed.
End Accounting.

(** ** Pages served in turn *)

Section Pagination.
Context {Exn Srv : Type}.
Variable execute : Srv -> option string -> Srv * reply Exn.

Local Abbreviation config := (config Exn Srv).
Local Abbreviation iteration := (iteration execute).
Local Abbreviation run := (run execute).
Local Abbreviation collect := (collect execute).
Local Abbreviation call_count := (call_count execute).

Implicit Types (c : config) (s : Srv) (n m fuel : nat) (p : Page).

(** From inside the loop, a service that answers with continuing pages
    [ps] and then a page [final] that stops the loop is called once per
    page, and the loop is left with all their identifiers appended. *)
Lemma iter_serves ps final : forall c,
  pc c = FETCHING ->
  Forall (fun p => truthy (nextPageToken p) = true) ps ->
  truthy (nextPageToken final) = false ->
  serves execute (srv c) (next_page_token c) (ps ++ [final]) ->
  let c' := Nat.iter (S (length ps)) iteration c in
  pc c' = DONE
  /\ video_ids c' = video_ids c ++ concat (map page_ids (ps ++ [final]))
  /\ pages_of (calls c') = pages_of (calls c) ++ ps ++ [final]
  /\ length (calls c') = length (calls c) + S (length ps).
Proof.
  induction ps as [|p ps IH]; intros c Hpc Hps Hfin Hsrv.
  - destruct Hsrv as (s' & Hex & _). simpl.
    rewrite (iteration_reply execute c s' final Hpc Hex), Hfin; simpl.
    rewrite app_nil_r, pages_of_snoc_reply, length_app; simpl.
    repeat split; lia || done.
  - destruct Hsrv as (s' & Hex & Hrest).
    apply Forall_cons in Hps as [Hp Hps].
    cbv zeta. change (length (p :: ps)) with (S (length ps)).
    rewrite Nat.iter_succ_r.
    pose proof (iteration_reply execute c s' p Hpc Hex) as Hit.
    rewrite Hp in Hit.
    destruct (IH (iteration c)) as (H1 & H2 & H3 & H4); try done.
    + by rewrite Hit.
    + by rewrite Hit.
    + rewrite H1, H2, H3, H4, Hit; simpl.
      rewrite pages_of_snoc_reply, length_app; simpl.
      rewrite <- !app_assoc; simpl.
      repeat split; lia || done.
Qed.

Lemma carries_nonempty_truthy p :
  (exists t, nextPageToken p = Some t /\ t <> EmptyString) ->
  truthy (nextPageToken p) = true.
Proof. intros H. by apply truthy_true_iff. Qed.

(** C1 (as amended): when the service answers with N pages of which the
    first N-1 each carry a non-empty continuation token and the N-th
    carries none, [collect] returns the identifiers of all N pages, page
    after page and in each page's order, and has called the service N
    times: with any budget of at least N trips that is the outcome, and
    with less the loop is still running. *)
Theorem collect_concatenates_pages (ps : list Page) (final : Page) s :
  Forall (fun p => exists t, nextPageToken p = Some t /\ t <> EmptyString) ps ->
  nextPageToken final = None ->
  serves execute s None (ps ++ [final]) ->
  (forall fuel, length (ps ++ [final]) <= fuel ->
     collect fuel s = Some (Returned (concat (map page_ids (ps ++ [final]))))
     /\ call_count fuel s = length (ps ++ [final])
     /\ pages_of (calls (run fuel s)) = ps ++ [final])
  /\ (forall fuel, fuel < length (ps ++ [final]) -> collect fuel s = None).
Proof.
  intros Hps Hfin Hsrv.
  assert (Hps' : Forall (fun p => truthy (nextPageToken p) = true) ps).
  { eapply Forall_impl; [exact Hps|]. intros p. apply carries_nonempty_truthy. }
  assert (Hfin' : truthy (nextPageToken final) = false) by (by rewrite Hfin).
  pose proof (iter_serves ps final (init s) eq_refl Hps' Hfin' Hsrv) as H.
  cbv zeta in H.
  change (Nat.iter (S (length ps)) iteration (init s))
    with (run (S (length ps)) s) in H.
  remember (run (S (length ps)) s) as cN eqn:EcN.
  destruct H as (H1 & H2 & H3 & H4). simpl in H2, H3, H4. subst cN.
  assert (HN : length (ps ++ [final]) = S (length ps))
    by (rewrite length_app; simpl; lia).
  rewrite HN. split.
  - intros fuel Hle.
    unfold collect, call_count, result.
    rewrite (run_stable execute (S (length ps)) fuel s) by (congruence || lia).
    by rewrite H1, H2, H3, H4.
  - intros fuel Hlt. unfold collect, result.
    destruct (pc (run fuel s)) eqn:Hpc; [done|exfalso..].
    all: pose proof (run_calls_le execute fuel s) as Hlen.
    all: rewrite <- (run_stable execute fuel (S (length ps)) s) in Hlen
           by (congruence || lia).
    all: lia.
Qed.

(** C6: when the first page carries no continuation token, [collect]
    calls the service once and returns that page's identifiers, nothing
    more and nothing less, whatever budget of at least one trip it has;
    a page without records then gives the empty list. *)
Theorem collect_single_page s s' p :
  execute s None = (s', Reply p) ->
  nextPageToken p = None ->
  forall fuel, 1 <= fuel ->
    collect fuel s = Some (Returned (page_ids p))
    /\ call_count fuel s = 1
    /\ (items p = [] -> collect fuel s = Some (Returned [])).
Proof.
  intros Hex Htok fuel Hfuel.
  assert (Hrun : run 1 s =
                 {| pc := DONE; video_ids := page_ids p;
                    next_page_token := None; srv := s';
                    calls := [Call None (Reply p)] |}).
  { rewrite run_S, run_0.
    rewrite (iteration_reply execute (init s) s' p eq_refl Hex).
    by rewrite Htok. }
  unfold collect, call_count, result.
  rewrite (run_stable execute 1 fuel s) by (by rewrite ?Hrun).
  rewrite Hrun; simpl. repeat split.
  intros Hnil. unfold page_ids. by rewrite Hnil.
Qed.
End Pagination.

(** ** Leaving the loop *)

Section Halting.
Context {Exn Srv : Type}.
Variable execute : Srv -> option string -> Srv * reply Exn.

Local Abbreviation config := (config Exn Srv).
Local Abbreviation iteration := (iteration execute).
Local Abbreviation run := (run execute).
Local Abbreviation collect := (collect execute).
Local Abbreviation call_count := (call_count execute).

Implicit Types (c : config) (s : Srv) (n m k fuel : nat) (p : Page).

(** Two budgets under which the loop has been left see the same
    configuration. *)
Lemma halted_agree n m s :
  pc (run n s) <> FETCHING -> pc (run m s) <> FETCHING -> run n s = run m s.
Proof.
  intros Hn Hm. destruct (Nat.le_ge_cases n m).
  - symmetry. by apply run_stable.
  - by apply run_stable.
Qed.

(** Out of the loop, the last logged call is not a continuing page. *)
Lemma halted_not_all_continuing n c :
  log_shape n c -> pc c <> FETCHING -> ~ Forall continuing (calls c).
Proof.
  intros [_ Hsh] Hpc Hall. destruct (pc c) as [| |e]; [done| |].
  - destruct Hsh as (l & x & p & Hc & _ & Hx & Hp).
    rewrite Hc in Hall. apply Forall_app in Hall as [_ Hall].
    apply Forall_inv in Hall as (q & Hq & Ht). congruence.
  - destruct Hsh as (l & x & Hc & _ & Hx).
    rewrite Hc in Hall. apply Forall_app in Hall as [_ Hall].
    apply Forall_inv in Hall as (q & Hq & Ht). congruence.
Qed.

(** The loop is left on the very trip that makes the last call. *)
Lemma first_halt n s :
  pc (run n s) <> FETCHING ->
  pc (run (length (calls (run n s))) s) <> FETCHING.
Proof.
  intros Hn Hk.
  pose proof (run_calls_le execute n s) as Hle.
  destruct (run_fetching_calls execute _ s Hk) as [Hall Hlen].
  pose proof (run_calls_prefix execute _ n s Hle) as Hpre.
  apply prefix_length_eq in Hpre; [|lia].
  rewrite Hpre in Hall.
  by eapply halted_not_all_continuing; [apply run_shape| |].
Qed.

(** While in the loop, one call per trip, none of which raised. *)
Lemma before_halt n fuel s :
  pc (run n s) <> FETCHING -> fuel < length (calls (run n s)) ->
  pc (run fuel s) = FETCHING.
Proof.
  intros Hn Hlt.
  destruct (pc (run fuel s)) eqn:Hpc; [done|exfalso..].
  all: pose proof (run_calls_le execute fuel s) as Hle.
  all: rewrite (halted_agree fuel n s) in Hle by congruence.
  all: lia.
Qed.
End Halting.

(** ** Failure and termination *)

Section Stopping.
Context {Exn Srv : Type}.
Variable execute : Srv -> option string -> Srv * reply Exn.

Local Abbreviation config := (config Exn Srv).
Local Abbreviation iteration := (iteration execute).
Local Abbreviation run := (run execute).
Local Abbreviation collect := (collect execute).
Local Abbreviation call_count := (call_count execute).

Implicit Types (c : config) (s : Srv) (n m k fuel : nat) (p : Page).

Lemma raise_not_continuing (x : call Exn) e :
  response x = Raise e -> ~ continuing x.
Proof. intros Hx (p & Hp & _). congruence. Qed.

Lemma falsy_not_continuing (x : call Exn) p :
  response x = Reply p -> truthy (nextPageToken p) = false -> ~ continuing x.
Proof. intros Hx Hf (q & Hq & Ht). congruence. Qed.

(** The phase is read off the last logged call. *)
Lemma last_call_raise n c i x e :
  log_shape n c -> calls c !! i = Some x -> response x = Raise e ->
  pc c = RAISED e /\ length (calls c) = S i.
Proof.
  intros Hsh Hi Hx.
  destruct (log_shape_stop n c i x Hsh Hi (raise_not_continuing x e Hx))
    as [Hlen Hpc].
  split; [|done]. destruct Hsh as [_ Hsh]. destruct (pc c) as [| |e']; [done| |].
  - destruct Hsh as (l & y & p & Hc & _ & Hy & _).
    rewrite Hc, length_app in Hlen; simpl in Hlen.
    rewrite Hc, list_lookup_middle in Hi by lia. congruence.
  - destruct Hsh as (l & y & Hc & _ & Hy).
    rewrite Hc, length_app in Hlen; simpl in Hlen.
    rewrite Hc, list_lookup_middle in Hi by lia. congruence.
Qed.

Lemma last_call_falsy n c i x p :
  log_shape n c -> calls c !! i = Some x ->
  response x = Reply p -> truthy (nextPageToken p) = false ->
  pc c = DONE /\ length (calls c) = S i.
Proof.
  intros Hsh Hi Hx Hp.
  destruct (log_shape_stop n c i x Hsh Hi (falsy_not_continuing x p Hx Hp))
    as [Hlen Hpc].
  split; [|done]. destruct Hsh as [_ Hsh]. destruct (pc c) as [| |e']; [done..|].
  destruct Hsh as (l & y & Hc & _ & Hy).
  rewrite Hc, length_app in Hlen; simpl in Hlen.
  rewrite Hc, list_lookup_middle in Hi by lia. congruence.
Qed.

(** C2: when the k-th call to the service (k >= 1) raises, [collect]
    fails with that error: with any budget of at least k trips the
    outcome is [UpstreamError] and the service has been called k times,
    never again after the failure; with a smaller budget the loop is still
    running; and under no budget is a list of identifiers returned. *)
Theorem collect_fails_on_failed_call s k fuel0 x e :
  1 <= k ->
  calls (run fuel0 s) !! (k - 1) = Some x ->
  response x = Raise e ->
  (forall fuel, k <= fuel ->
     collect fuel s = Some (UpstreamError e) /\ call_count fuel s = k)
  /\ (forall fuel, fuel < k -> collect fuel s = None)
  /\ (forall fuel ids, collect fuel s <> Some (Returned ids)).
Proof.
  intros Hk Hx He.
  destruct (last_call_raise fuel0 (run fuel0 s) (k - 1) x e
              (run_shape execute fuel0 s) Hx He) as [Hpc Hlen].
  replace (S (k - 1)) with k in Hlen by lia.
  assert (Hhalt : pc (run fuel0 s) <> FETCHING) by congruence.
  pose proof (first_halt execute fuel0 s Hhalt) as Hfirst.
  rewrite Hlen in Hfirst.
  repeat split.
  - unfold collect, result.
    rewrite (run_stable execute k fuel s), (halted_agree execute k fuel0 s)
      by done.
    by rewrite Hpc.
  - unfold call_count.
    by rewrite (run_stable execute k fuel s), (halted_agree execute k fuel0 s).
  - intros fuel Hlt. unfold collect, result.
    rewrite (before_halt execute fuel0 fuel s); [done|done|lia].
  - intros fuel ids. unfold collect, result.
    destruct (pc (run fuel s)) eqn:Hf; [done| |done].
    rewrite (halted_agree execute fuel fuel0 s) in Hf; congruence.
Qed.

(** Against a service whose every page names a successor the loop is
    never left, and makes one call per trip. *)
Lemma run_endless s :
  (forall st tok, exists st' p,
      execute st tok = (st', Reply p) /\ truthy (nextPageToken p) = true) ->
  forall n, pc (run n s) = FETCHING /\ length (calls (run n s)) = n.
Proof.
  intros Hsrv.
  apply (run_ind execute (fun n c => pc c = FETCHING /\ length (calls c) = n)).
  - done.
  - intros n c [Hpc Hlen].
    destruct (Hsrv (srv c) (next_page_token c)) as (st' & p & Hex & Ht).
    rewrite (iteration_reply execute c st' p Hpc Hex), Ht; simpl.
    rewrite length_app; simpl. split; [done | lia].
Qed.

(** C3 (as amended): [collect] returns exactly when the service at some
    point answers with a page whose continuation token is absent or
    empty; the loop has no bound of its own on the number of trips, so
    against a service that answers every call with a page carrying a
    non-empty token it is still running after any number of trips, having
    made as many calls. *)
Theorem collect_returns_iff_final_page s :
  ((exists fuel ids, collect fuel s = Some (Returned ids)) <->
   (exists fuel x p, x ∈ calls (run fuel s) /\ response x = Reply p /\
      (nextPageToken p = None \/ nextPageToken p = Some EmptyString)))
  /\ ((forall st tok, exists st' p t,
          execute st tok = (st', Reply p) /\
          nextPageToken p = Some t /\ t <> EmptyString) ->
      forall fuel, collect fuel s = None /\ call_count fuel s = fuel).
Proof.
  split; [split|].
  - intros (fuel & ids & Hc). unfold collect, result in Hc.
    destruct (run_shape execute fuel s) as [_ Hsh].
    destruct (pc (run fuel s)); [done| |done].
    destruct Hsh as (l & x & p & Hl & _ & Hx & Hp).
    exists fuel, x, p. rewrite Hl. split; [|split; [done|]].
    + apply elem_of_app. right. by apply list_elem_of_singleton.
    + by apply truthy_false_iff.
  - intros (fuel & x & p & Hin & Hx & Hp).
    apply list_elem_of_lookup in Hin as [i Hi].
    apply truthy_false_iff in Hp.
    destruct (last_call_falsy fuel _ i x p (run_shape execute fuel s) Hi Hx Hp)
      as [Hpc _].
    exists fuel, (video_ids (run fuel s)).
    unfold collect, result. by rewrite Hpc.
  - intros Hsrv fuel.
    destruct (run_endless s) with (n := fuel) as [Hpc Hlen].
    { intros st tok. destruct (Hsrv st tok) as (st' & p & t & Hex & Ht & Hne).
      exists st', p. split; [done|]. apply truthy_true_iff. eauto. }
    unfold collect, call_count, result.
    by rewrite Hpc.
Qed.

(** C7 (as amended): a trip that receives a page goes from FETCHING to
    FETCHING when the page carries a non-empty token and from FETCHING to
    DONE when the token is absent or empty; DONE is terminal; and once a
    page with an absent or empty token has been received as the answer
    to call i+1, no budget ever sees more than i+1 calls. *)
Theorem done_is_terminal :
  (forall c s' p,
      pc c = FETCHING ->
      execute (srv c) (next_page_token c) = (s', Reply p) ->
      ((exists t, nextPageToken p = Some t /\ t <> EmptyString) ->
         pc (iteration c) = FETCHING)
      /\ ((nextPageToken p = None \/ nextPageToken p = Some EmptyString) ->
         pc (iteration c) = DONE))
  /\ (forall c, pc c = DONE -> forall m, Nat.iter m iteration c = c)
  /\ (forall fuel s i x p,
        calls (run fuel s) !! i = Some x ->
        response x = Reply p ->
        (nextPageToken p = None \/ nextPageToken p = Some EmptyString) ->
        forall m, length (calls (run m s)) <= S i
                  /\ (S i <= m -> pc (run m s) = DONE
                                  /\ calls (run m s) = calls (run fuel s))).
Proof.
  split; [|split].
  - intros c s' p Hpc Hex.
    rewrite (iteration_reply execute c s' p Hpc Hex); simpl. split.
    + intros Ht. apply truthy_true_iff in Ht. by rewrite Ht.
    + intros Hf. apply truthy_false_iff in Hf. by rewrite Hf.
  - intros c Hc m. apply iter_halted. congruence.
  - intros fuel s i x p Hi Hx Hp m.
    apply truthy_false_iff in Hp.
    destruct (last_call_falsy fuel _ i x p (run_shape execute fuel s) Hi Hx Hp)
      as [Hpc Hlen].
    assert (Hhalt : pc (run fuel s) <> FETCHING) by congruence.
    split.
    + destruct (Nat.le_ge_cases m fuel) as [Hle|Hge].
      * rewrite <- Hlen. apply prefix_length. by apply run_calls_prefix.
      * rewrite (run_stable execute fuel m s) by done. lia.
    + intros Hm.
      pose proof (first_halt execute fuel s Hhalt) as Hfirst.
      rewrite Hlen in Hfirst.
      by rewrite (run_stable execute (S i) m s),
                 (halted_agree execute (S i) fuel s).
Qed.
End Stopping.

(** ** The arguments of the calls *)

Section Arguments.
Context {Exn Srv : Type}.
Variable execute : Srv -> option string -> Srv * reply Exn.

Local Abbreviation config := (config Exn Srv).
Local Abbreviation iteration := (iteration execute).
Local Abbreviation run := (run execute).
Local Abbreviation collect := (collect execute).
Local Abbreviation call_count := (call_count execute).

Implicit Types (c : config) (s : Srv) (n m k fuel : nat) (p : Page).

Lemma first_arg n s x : calls (run n s) !! 0 = Some x -> pageToken x = None.
Proof.
  intros Hx. destruct (run_accounts execute n s) as (_ & _ & _ & Harg).
  by rewrite (Harg 0 x Hx).
Qed.

Lemma next_arg n s i x y :
  calls (run n s) !! i = Some x -> calls (run n s) !! S i = Some y ->
  exists p, response x = Reply p /\ truthy (nextPageToken p) = true
            /\ pageToken y = nextPageToken p.
Proof.
  intros Hx Hy.
  assert (Hc : continuing x).
  { eapply log_shape_init_continuing; [apply (run_shape execute n s)|done|].
    by eapply lookup_lt_Some. }
  destruct Hc as (p & Hp & Ht). exists p. repeat split; [done..|].
  destruct (run_accounts execute n s) as (_ & _ & _ & Harg).
  rewrite (Harg (S i) y Hy), (take_S_r _ _ x Hx).
  destruct x as [tok r]; simpl in Hp; subst r.
  apply cursor_snoc_reply.
Qed.

(** C4: the first call is made without continuation token, each later
    call with exactly the token of the page that the call before it
    returned, and the calls come one at a time: a trip adds at most one
    call to those already made, and makes it with the token and the
    service state that the trip before left. *)
Theorem calls_follow_the_cursor fuel s :
  (forall x, calls (run fuel s) !! 0 = Some x -> pageToken x = None)
  /\ (forall i x y,
        calls (run fuel s) !! i = Some x ->
        calls (run fuel s) !! S i = Some y ->
        exists p, response x = Reply p /\ pageToken y = nextPageToken p)
  /\ (calls (run (S fuel) s) = calls (run fuel s)
      \/ calls (run (S fuel) s) =
         calls (run fuel s) ++
           [Call (next_page_token (run fuel s))
                 (snd (execute (srv (run fuel s))
                               (next_page_token (run fuel s))))]).
Proof.
  split; [|split].
  - apply first_arg.
  - intros i x y Hx Hy.
    destruct (next_arg fuel s i x y Hx Hy) as (p & Hp & _ & Hy').
    by exists p.
  - rewrite run_S.
    destruct (iteration_calls execute (run fuel s))
      as [->|([tok r] & -> & Htok & Hr)]; [by left|right].
    simpl in Htok, Hr. by rewrite Htok, Hr.
Qed.

(** C9: a page whose [nextPageToken] is the empty string ends the loop
    just as a page without the key does: the loop is left with that
    page's identifiers appended, no further call is made however long the
    run goes on, and in no run is the empty string ever passed as the
    argument of a call. *)
Theorem empty_token_stops_like_no_token :
  (forall c s' p,
      pc c = FETCHING ->
      execute (srv c) (next_page_token c) = (s', Reply p) ->
      nextPageToken p = Some EmptyString \/ nextPageToken p = None ->
      pc (iteration c) = DONE
      /\ result (iteration c) = Some (Returned (video_ids c ++ page_ids p))
      /\ forall m, calls (Nat.iter m iteration (iteration c)) =
                   calls c ++ [Call (next_page_token c) (Reply p)])
  /\ (forall fuel s x, x ∈ calls (run fuel s) ->
                       pageToken x <> Some EmptyString).
Proof.
  split.
  - intros c s' p Hpc Hex Hp.
    assert (Hf : truthy (nextPageToken p) = false)
      by (apply truthy_false_iff; tauto).
    pose proof (iteration_reply execute c s' p Hpc Hex) as Hit.
    rewrite Hf in Hit.
    assert (Hdone : pc (iteration c) = DONE) by (by rewrite Hit).
    repeat split; [done| |].
    + unfold result. by rewrite Hdone, Hit.
    + intros m. rewrite iter_halted by congruence. by rewrite Hit.
  - intros fuel s x Hin.
    apply list_elem_of_lookup in Hin as [[|i] Hi].
    + by rewrite (first_arg fuel s x Hi).
    + assert (is_Some (calls (run fuel s) !! i)) as [z Hz].
      { apply lookup_lt_is_Some. apply lookup_lt_Some in Hi. lia. }
      destruct (next_arg fuel s i z x Hz Hi) as (p & _ & Ht & ->).
      intros Heq. by rewrite Heq in Ht.
Qed.
End Arguments.

(** ** Counting occurrences *)

Lemma count_occ_concat (ls : list (list string)) (id : string) :
  count_occ String.string_dec (concat ls) id =
  list_sum (map (fun l => count_occ String.string_dec l id) ls).
Proof.
  induction ls as [|l ls IH]; simpl; [done|].
  by rewrite count_occ_app, IH.
Qed.

Lemma count_occ_concat_ge (ps : list Page) (k : nat) (q : Page) (id : string) :
  ps !! k = Some q ->
  count_occ String.string_dec (page_ids q) id <=
  count_occ String.string_dec (concat (map page_ids ps)) id.
Proof.
  revert k. induction ps as [|p ps IH]; intros [|k] Hk; simpl in *;
    try discriminate; rewrite count_occ_app.
  - injection Hk as ->. lia.
  - specialize (IH k Hk). lia.
Qed.

Lemma count_occ_two_pages (ps : list Page) (i j : nat) (p q : Page) (id : string) :
  i < j -> ps !! i = Some p -> ps !! j = Some q ->
  count_occ String.string_dec (page_ids p) id + count_occ String.string_dec (page_ids q) id <=
  count_occ String.string_dec (concat (map page_ids ps)) id.
Proof.
  revert i j. induction ps as [|r ps IH]; intros [|i] [|j] Hlt Hi Hj;
    simpl in *; try discriminate; try lia; rewrite count_occ_app.
  - injection Hi as ->.
    pose proof (count_occ_concat_ge ps j q id Hj). lia.
  - assert (i < j) by lia. specialize (IH i j H Hi Hj). lia.
Qed.

Lemma count_occ_pos (l : list string) (id : string) :
  id ∈ l -> 1 <= count_occ String.string_dec l id.
Proof.
  intros Hin. apply list_elem_of_In in Hin.
  by apply (count_occ_In String.string_dec) in Hin.
Qed.

(** ** The accumulator *)

Section Accumulator.
Context {Exn Srv : Type}.
Variable execute : Srv -> option string -> Srv * reply Exn.

Local Abbreviation config := (config Exn Srv).
Local Abbreviation iteration := (iteration execute).
Local Abbreviation run := (run execute).
Local Abbreviation collect := (collect execute).
Local Abbreviation call_count := (call_count execute).

Implicit Types (c : config) (s : Srv) (n m k fuel : nat) (p : Page).

Lemma collect_returned fuel s ids :
  collect fuel s = Some (Returned ids) ->
  pc (run fuel s) = DONE /\ video_ids (run fuel s) = ids.
Proof.
  unfold collect, result.
  destruct (pc (run fuel s)); [done| |done].
  by intros [= <-].
Qed.

(** C5: nothing is filtered out of the result: it is the pages'
    identifier lists put end to end, so each identifier is in it as many
    times as it occurs in the pages received, and an identifier found in
    two of them is in it twice at least. *)
Theorem collect_keeps_duplicates fuel s ids :
  collect fuel s = Some (Returned ids) ->
  ids = concat (map page_ids (pages_of (calls (run fuel s))))
  /\ (forall id,
        count_occ String.string_dec ids id =
        list_sum (map (fun p => count_occ String.string_dec (page_ids p) id)
                      (pages_of (calls (run fuel s)))))
  /\ (forall i j p q id,
        i < j ->
        pages_of (calls (run fuel s)) !! i = Some p ->
        pages_of (calls (run fuel s)) !! j = Some q ->
        id ∈ page_ids p -> id ∈ page_ids q ->
        count_occ String.string_dec (page_ids p) id
          + count_occ String.string_dec (page_ids q) id
          <= count_occ String.string_dec ids id
        /\ 2 <= count_occ String.string_dec ids id).
Proof.
  intros Hc. apply collect_returned in Hc as [_ Hids].
  rewrite run_video_ids in Hids. subst ids.
  split; [done|split].
  - intros id. by rewrite count_occ_concat, map_map.
  - intros i j p q id Hlt Hi Hj Hp Hq.
    pose proof (count_occ_two_pages _ i j p q id Hlt Hi Hj).
    pose proof (count_occ_pos _ id Hp).
    pose proof (count_occ_pos _ id Hq).
    lia.
Qed.

(** C8: each run starts from an empty list of its own; the list only
    grows, an earlier state of it being a prefix of every later one; the
    list handed over at the end holds the identifiers of every page
    received and is the same under any larger budget; and the service,
    the one thing outside the loop that it touches, is moved by the logged
    calls and by nothing else. *)
Theorem accumulator_is_fresh_and_grows s :
  (video_ids (run 0 s) = [] /\ calls (run 0 s) = [])
  /\ (forall n m, n <= m -> video_ids (run n s) `prefix_of` video_ids (run m s))
  /\ (forall n ids,
        collect n s = Some (Returned ids) ->
        ids = concat (map page_ids (pages_of (calls (run n s))))
        /\ forall m, n <= m ->
             collect m s = Some (Returned ids) /\ video_ids (run m s) = ids)
  /\ (forall n, srv (run n s) = replay execute s (calls (run n s))).
Proof.
  split; [done|split; [|split]].
  - intros n m. apply run_video_ids_prefix.
  - intros n ids Hc. pose proof Hc as Hc'.
    apply collect_returned in Hc' as [Hpc Hids].
    split; [by rewrite <- Hids, run_video_ids|].
    intros m Hle. unfold collect in *.
    by rewrite (run_stable execute n m s) by congruence.
  - intros n. apply run_accounts.
Qed.
End Accumulator.

(** ** Determinism *)

Lemma omap_map_response {Exn} (log : list (call Exn)) :
  omap (fun r : reply Exn => match r with Reply q => Some q | Raise _ => None end)
       (map response log) = pages_of log.
Proof.
  unfold pages_of. induction log as [|x log IH]; [done|].
  cbn. destruct (response x); cbn; [apply IH | f_equal; apply IH].
Qed.

Lemma outcome_of_snoc {Exn} (log : list (call Exn)) (x : call Exn) :
  outcome_of (map response (log ++ [x])) =
  match response x with
  | Raise e => Some (UpstreamError e)
  | Reply p =>
      if truthy (nextPageToken p) then None
      else Some (Returned (concat (map page_ids (pages_of (log ++ [x])))))
  end.
Proof.
  unfold outcome_of. rewrite omap_map_response.
  rewrite map_app; simpl. by rewrite last_snoc.
Qed.

Section Determinism.
Context {Exn Srv : Type}.
Variable execute : Srv -> option string -> Srv * reply Exn.

Local Abbreviation config := (config Exn Srv).
Local Abbreviation iteration := (iteration execute).
Local Abbreviation run := (run execute).
Local Abbreviation collect := (collect execute).
Local Abbreviation call_count := (call_count execute).

Implicit Types (c : config) (s : Srv) (n m k fuel : nat) (p : Page).

(** When the reply depends on the argument alone, the loop does not see
    the state of the service. *)
Lemma same_view_step (f : option string -> reply Exn) c1 c2 :
  (forall st tok, snd (execute st tok) = f tok) ->
  same_view c1 c2 -> same_view (iteration c1) (iteration c2).
Proof.
  intros Hf (Hpc & Hids & Htok & Hlog).
  destruct (pc c1) eqn:H1; symmetry in Hpc;
    [|by rewrite !iteration_halted by congruence; repeat split; congruence..].
  pose proof (Hf (srv c1) (next_page_token c1)) as E1.
  pose proof (Hf (srv c2) (next_page_token c2)) as E2.
  destruct (execute (srv c1) (next_page_token c1)) as [s1 r1] eqn:X1.
  destruct (execute (srv c2) (next_page_token c2)) as [s2 r2] eqn:X2.
  simpl in E1, E2.
  assert (r1 = r2) as <- by congruence.
  destruct r1 as [e|p].
  - rewrite (iteration_raise execute c1 s1 e H1 X1).
    rewrite (iteration_raise execute c2 s2 e Hpc X2).
    repeat split; simpl; congruence.
  - rewrite (iteration_reply execute c1 s1 p H1 X1).
    rewrite (iteration_reply execute c2 s2 p Hpc X2).
    repeat split; simpl; congruence.
Qed.

Lemma same_view_run (f : option string -> reply Exn) s1 s2 n :
  (forall st tok, snd (execute st tok) = f tok) ->
  same_view (run n s1) (run n s2).
Proof.
  intros Hf. induction n as [|n IH]; [done|].
  rewrite !run_S. by eapply same_view_step.
Qed.

(** The outcome is a function of the replies received. *)
Lemma collect_outcome_of fuel s :
  collect fuel s = outcome_of (map response (calls (run fuel s))).
Proof.
  unfold collect, result.
  destruct (run_shape execute fuel s) as [_ Hsh].
  pose proof (run_video_ids execute fuel s) as Hids.
  destruct (pc (run fuel s)).
  - destruct Hsh as [Hall _].
    destruct (calls (run fuel s)) as [|x l _] using rev_ind; [done|].
    rewrite outcome_of_snoc.
    apply Forall_app in Hall as [_ Hx].
    apply Forall_inv in Hx as (p & -> & ->). done.
  - destruct Hsh as (l & x & p & Hl & _ & Hx & Hp).
    rewrite Hids, Hl, outcome_of_snoc, Hx, Hp. done.
  - destruct Hsh as (l & x & Hl & _ & Hx).
    by rewrite Hl, outcome_of_snoc, Hx.
Qed.

(** C10: with a service whose reply is a function of the token it is
    given, any two runs, from whatever states of the service, return the
    same identifiers after the same calls; and for every service the
    outcome is a function of the replies received, and the number of
    calls is their number. *)
Theorem collect_is_deterministic :
  ((exists f : option string -> reply Exn,
       forall st tok, snd (execute st tok) = f tok) ->
   forall s1 s2 fuel,
     collect fuel s1 = collect fuel s2
     /\ call_count fuel s1 = call_count fuel s2
     /\ calls (run fuel s1) = calls (run fuel s2))
  /\ (forall fuel s,
        collect fuel s = outcome_of (map response (calls (run fuel s)))
        /\ call_count fuel s = length (map response (calls (run fuel s)))).
Proof.
  split.
  - intros [f Hf] s1 s2 fuel.
    destruct (same_view_run f s1 s2 fuel Hf) as (Hpc & Hids & _ & Hlog).
    unfold collect, call_count, result.
    by rewrite Hpc, Hids, Hlog.
  - intros fuel s. split; [apply collect_outcome_of|].
    unfold call_count. by rewrite length_map.
Qed.
End Determinism.

(** ** The theorems at work on concrete services *)

(** C1 on the two-page scenario of the specification. *)
Lemma collect_concatenates_pages_witness :
  Forall (fun p => exists t, nextPageToken p = Some t /\ t <> EmptyString)
         [page ["a"; "b"]%string (Some "t1"%string)]
  /\ nextPageToken (page ["c"]%string None) = None
  /\ serves scripted two_pages None
       ([page ["a"; "b"]%string (Some "t1"%string)] ++ [page ["c"]%string None])
  /\ (forall fuel, 2 <= fuel ->
        collect scripted fuel two_pages = Some (Returned ["a"; "b"; "c"]%string)
        /\ call_count scripted fuel two_pages = 2
        /\ pages_of (calls (run scripted fuel two_pages)) =
           [page ["a"; "b"]%string (Some "t1"%string); page ["c"]%string None])
  /\ (forall fuel, fuel < 2 -> collect scripted fuel two_pages = None).
Proof.
  assert (H1 : Forall (fun p => exists t, nextPageToken p = Some t /\ t <> EmptyString)
                      [page ["a"; "b"]%string (Some "t1"%string)]).
  { constructor; [|constructor]. exists "t1"%string. split; [reflexivity|discriminate]. }
  assert (H2 : nextPageToken (page ["c"]%string None) = None) by reflexivity.
  assert (H3 : serves scripted two_pages None
                 ([page ["a"; "b"]%string (Some "t1"%string)]
                    ++ [page ["c"]%string None])).
  { simpl. eexists. split; [reflexivity|]. eexists. split; [reflexivity|exact I]. }
  split; [exact H1|]. split; [exact H2|]. split; [exact H3|].
  exact (collect_concatenates_pages scripted _ _ _ H1 H2 H3).
Defined.

(** C1 as first stated, with pages 1..N-1 only required to carry a token:
    the first of these two pages carries one, the empty string, and the
    loop stops there, with one page's identifiers after one call. *)
Lemma collect_stops_at_empty_token :
  Forall (fun p => is_Some (nextPageToken p)) [page ["a"]%string (Some ""%string)]
  /\ nextPageToken (page ["b"]%string None) = None
  /\ serves scripted empty_token_pages None
       ([page ["a"]%string (Some ""%string)] ++ [page ["b"]%string None])
  /\ collect scripted 1 empty_token_pages = Some (Returned ["a"]%string)
  /\ (forall fuel,
        collect scripted fuel empty_token_pages <>
          Some (Returned (concat (map page_ids
                  ([page ["a"]%string (Some ""%string)]
                     ++ [page ["b"]%string None]))))
        /\ call_count scripted fuel empty_token_pages <>
             length ([page ["a"]%string (Some ""%string)]
                       ++ [page ["b"]%string None])).
Proof.
  split; [by repeat constructor|]. split; [reflexivity|].
  split; [simpl; eexists; split; [reflexivity|]; eexists; by split|].
  split; [reflexivity|].
  intros [|fuel].
  - split; [discriminate | vm_compute; lia].
  - unfold collect, call_count.
    rewrite (run_stable scripted 1 (S fuel) empty_token_pages)
      by (vm_compute; (discriminate || lia)).
    split; [discriminate | vm_compute; lia].
Qed.

(** C2 on a script whose second reply is an exception. *)
Lemma collect_fails_on_failed_call_witness :
  1 <= 2
  /\ calls (run scripted 5 failing_second) !! (2 - 1) =
       Some (Call (Some "t1"%string) (Raise "quotaExceeded"%string))
  /\ response (Call (Some "t1"%string) (Raise "quotaExceeded"%string)) =
       Raise "quotaExceeded"%string
  /\ (forall fuel, 2 <= fuel ->
        collect scripted fuel failing_second =
          Some (UpstreamError "quotaExceeded"%string)
        /\ call_count scripted fuel failing_second = 2)
  /\ (forall fuel, fuel < 2 -> collect scripted fuel failing_second = None)
  /\ (forall fuel ids, collect scripted fuel failing_second <> Some (Returned ids)).
Proof.
  assert (H1 : 1 <= 2) by lia.
  assert (H2 : calls (run scripted 5 failing_second) !! (2 - 1) =
               Some (Call (Some "t1"%string) (Raise "quotaExceeded"%string)))
    by reflexivity.
  assert (H3 : response (Call (Some "t1"%string) (Raise "quotaExceeded"%string)) =
               Raise "quotaExceeded"%string) by reflexivity.
  split; [exact H1|]. split; [exact H2|]. split; [exact H3|].
  exact (collect_fails_on_failed_call scripted failing_second 2 5 _ _ H1 H2 H3).
Defined.

(** C3 on a service whose every page names a successor: the loop never
    ends. *)
Lemma collect_returns_iff_final_page_witness :
  (forall st tok, exists st' p t,
      stateless endless st tok = (st', Reply p)
      /\ nextPageToken p = Some t /\ t <> EmptyString)
  /\ (forall fuel,
        collect (stateless endless) fuel 0 = None
        /\ call_count (stateless endless) fuel 0 = fuel).
Proof.
  assert (H : forall st tok, exists st' p t,
             stateless endless st tok = (st', Reply p)
             /\ nextPageToken p = Some t /\ t <> EmptyString).
  { intros st tok. eexists _, _, _. split; [reflexivity|].
    split; [reflexivity|discriminate]. }
  split; [exact H|].
  exact (proj2 (collect_returns_iff_final_page (stateless endless) 0) H).
Defined.

(** C3 as first stated: this service answers every call with a page that
    has a continuation token, never one without, and yet the loop ends at
    the first page, the token being the empty string. *)
Lemma collect_returns_on_empty_tokens :
  (forall st tok, exists st' p,
      stateless always_empty_token st tok = (st', Reply p)
      /\ is_Some (nextPageToken p))
  /\ (forall fuel x p,
        x ∈ calls (run (stateless always_empty_token) fuel 0) ->
        response x = Reply p -> nextPageToken p <> None)
  /\ collect (stateless always_empty_token) 1 0 = Some (Returned [])
  /\ ~ (forall fuel, collect (stateless always_empty_token) fuel 0 = None).
Proof.
  split; [|split; [|split]].
  - intros st tok. eexists _, _. split; [reflexivity|]. by eexists.
  - intros fuel x p Hin Hx.
    assert (Hsub : calls (run (stateless always_empty_token) fuel 0)
                   `prefix_of` [Call None (Reply (page [] (Some ""%string)))]).
    { destruct fuel as [|fuel]; [by apply prefix_nil|].
      rewrite (run_stable (stateless always_empty_token) 1 (S fuel) 0)
        by (vm_compute; (discriminate || lia)).
      done. }
    destruct Hsub as [k Hk].
    assert (Hin' : x ∈ [Call (Exn:=string) None (Reply (page [] (Some ""%string)))]).
    { rewrite Hk. apply elem_of_app. by left. }
    apply list_elem_of_singleton in Hin'. subst x.
    simpl in Hx. injection Hx as <-. discriminate.
  - reflexivity.
  - intros H. specialize (H 1). discriminate.
Qed.

(** C4 on the pages keyed by token. *)
Lemma calls_follow_the_cursor_witness :
  map pageToken (calls (run (stateless keyed) 5 0)) = [None; Some "t1"%string]
  /\ (forall x, calls (run (stateless keyed) 5 0) !! 0 = Some x ->
                pageToken x = None)
  /\ (forall i x y,
        calls (run (stateless keyed) 5 0) !! i = Some x ->
        calls (run (stateless keyed) 5 0) !! S i = Some y ->
        exists p, response x = Reply p /\ pageToken y = nextPageToken p).
Proof.
  split; [reflexivity|].
  pose proof (calls_follow_the_cursor (stateless keyed) 5 0) as (H1 & H2 & _).
  split; [exact H1 | exact H2].
Defined.

(** C5 on two pages that both hold "abc". *)
Lemma collect_keeps_duplicates_witness :
  collect scripted 2 overlapping_pages = Some (Returned ["abc"; "x"; "abc"]%string)
  /\ pages_of (calls (run scripted 2 overlapping_pages)) !! 0 =
       Some (page ["abc"; "x"]%string (Some "t1"%string))
  /\ pages_of (calls (run scripted 2 overlapping_pages)) !! 1 =
       Some (page ["abc"]%string None)
  /\ 2 <= count_occ String.string_dec ["abc"; "x"; "abc"]%string "abc"%string.
Proof.
  assert (H : collect scripted 2 overlapping_pages =
              Some (Returned ["abc"; "x"; "abc"]%string)) by reflexivity.
  split; [exact H|]. split; [reflexivity|]. split; [reflexivity|].
  pose proof (collect_keeps_duplicates scripted 2 overlapping_pages _ H)
    as (_ & _ & Hdup).
  refine (proj2 (Hdup 0 1 _ _ "abc"%string _ eq_refl eq_refl _ _)).
  - lia.
  - rewrite page_ids_page. apply list_elem_of_here.
  - rewrite page_ids_page. apply list_elem_of_here.
Defined.

(** C6 on the single empty page of the specification. *)
Lemma collect_single_page_witness :
  scripted one_empty_page None = ([], Reply (page [] None))
  /\ nextPageToken (page [] None) = None
  /\ (forall fuel, 1 <= fuel ->
        collect scripted fuel one_empty_page = Some (Returned [])
        /\ call_count scripted fuel one_empty_page = 1).
Proof.
  assert (H1 : scripted one_empty_page None = ([], Reply (page [] None)))
    by reflexivity.
  assert (H2 : nextPageToken (page [] None) = None) by reflexivity.
  split; [exact H1|]. split; [exact H2|].
  intros fuel Hfuel.
  pose proof (collect_single_page scripted one_empty_page [] _ H1 H2 fuel Hfuel)
    as (Hc & Hn & _).
  split; [exact Hc | exact Hn].
Defined.

(** C7 on the two-page scenario: the second page, without token, has been
    received after one trip more, and nothing is called after it. *)
Lemma done_is_terminal_witness :
  calls (run scripted 2 two_pages) !! 1 =
    Some (Call (Some "t1"%string) (Reply (page ["c"]%string None)))
  /\ (forall m, length (calls (run scripted m two_pages)) <= 2
                /\ (2 <= m -> pc (run scripted m two_pages) = DONE
                              /\ calls (run scripted m two_pages) =
                                 calls (run scripted 2 two_pages))).
Proof.
  assert (H : calls (run scripted 2 two_pages) !! 1 =
              Some (Call (Some "t1"%string) (Reply (page ["c"]%string None))))
    by reflexivity.
  split; [exact H|].
  destruct (done_is_terminal scripted) as (_ & _ & Hstop).
  exact (Hstop 2 two_pages 1 _ _ H eq_refl (or_introl eq_refl)).
Defined.

(** C7 as first stated, with FETCHING to FETCHING on any token present:
    the page received here has a token, the empty string, and the trip goes
    from FETCHING to DONE. *)
Lemma empty_token_goes_to_done :
  pc (init empty_token_pages : config string (list (reply string))) = FETCHING
  /\ scripted empty_token_pages None =
       ([Reply (page ["b"]%string None)],
        Reply (page ["a"]%string (Some ""%string)))
  /\ is_Some (nextPageToken (page ["a"]%string (Some ""%string)))
  /\ pc (iteration scripted (init empty_token_pages)) = DONE
  /\ pc (iteration scripted (init empty_token_pages)) <> FETCHING.
Proof.
  split; [reflexivity|]. split; [reflexivity|]. split; [by eexists|].
  split; [reflexivity|discriminate].
Qed.

(** C8 on the two-page scenario. *)
Lemma accumulator_is_fresh_and_grows_witness :
  collect scripted 2 two_pages = Some (Returned ["a"; "b"; "c"]%string)
  /\ video_ids (run scripted 0 two_pages) = []
  /\ video_ids (run scripted 1 two_pages) `prefix_of`
       video_ids (run scripted 2 two_pages)
  /\ (forall m, 2 <= m ->
        collect scripted m two_pages = Some (Returned ["a"; "b"; "c"]%string)
        /\ video_ids (run scripted m two_pages) = ["a"; "b"; "c"]%string)
  /\ srv (run scripted 2 two_pages) =
       replay scripted two_pages (calls (run scripted 2 two_pages)).
Proof.
  assert (H : collect scripted 2 two_pages =
              Some (Returned ["a"; "b"; "c"]%string)) by reflexivity.
  destruct (accumulator_is_fresh_and_grows scripted two_pages)
    as ((H0 & _) & Hmono & Hfinal & Hframe).
  split; [exact H|]. split; [exact H0|].
  split; [apply Hmono; lia|].
  split; [exact (proj2 (Hfinal 2 _ H)) | exact (Hframe 2)].
Defined.

(** C9 on the pages whose first token is the empty string. *)
Lemma empty_token_stops_like_no_token_witness :
  scripted empty_token_pages None =
    ([Reply (page ["b"]%string None)], Reply (page ["a"]%string (Some ""%string)))
  /\ result (iteration scripted (init empty_token_pages)) =
       Some (Returned ["a"]%string)
  /\ (forall m, calls (Nat.iter m (iteration scripted)
                         (iteration scripted (init empty_token_pages))) =
                [Call None (Reply (page ["a"]%string (Some ""%string)))])
  /\ (forall fuel x, x ∈ calls (run scripted fuel empty_token_pages) ->
                     pageToken x <> Some EmptyString).
Proof.
  assert (H : scripted empty_token_pages None =
              ([Reply (page ["b"]%string None)],
               Reply (page ["a"]%string (Some ""%string)))) by reflexivity.
  destruct (empty_token_stops_like_no_token scripted) as [Hstep Harg].
  destruct (Hstep (init empty_token_pages) _ _ eq_refl H (or_introl eq_refl))
    as (_ & Hres & Hcalls).
  split; [exact H|]. split; [exact Hres|]. split; [exact Hcalls|].
  exact (fun fuel x => Harg fuel empty_token_pages x).
Defined.

(** C10 on the pages keyed by token: the state the service is in when
    the run starts makes no difference. *)
Lemma collect_is_deterministic_witness :
  (exists f : option string -> reply string,
      forall st tok, snd (stateless keyed st tok) = f tok)
  /\ (forall s1 s2 fuel,
        collect (stateless keyed) fuel s1 = collect (stateless keyed) fuel s2
        /\ call_count (stateless keyed) fuel s1 =
           call_count (stateless keyed) fuel s2
        /\ calls (run (stateless keyed) fuel s1) =
           calls (run (stateless keyed) fuel s2)).
Proof.
  assert (H : exists f : option string -> reply string,
             forall st tok, snd (stateless keyed st tok) = f tok).
  { exists keyed. intros st tok. reflexivity. }
  split; [exact H|].
  exact (proj1 (collect_is_deterministic (stateless keyed)) H).
Defined.

(** ** Lines 49-77: one row per video *)

Module VideosFacts.
Import Videos.

Lemma extract_nil {Exn} (r : Response) :
  items r = [] -> extract (Exn:=Exn) r = inl IndexError.
Proof. intros H. unfold extract, first_item. by rewrite H. Qed.

Lemma extract_cons {Exn} (r : Response) v vs :
  items r = v :: vs ->
  extract (Exn:=Exn) r =
    (t ← getitem (snippet v) "title";
     d ← getitem (snippet v) "publishedAt";
     n ← getitem (statistics v) "viewCount";
     l ← getitem (statistics v) "likeCount";
     c ← getitem (statistics v) "commentCount";
     inr ({[ "title" := t; "upload_date" := d; "views" := n; "likes" := l;
             "comments" := c ]} : gmap string string))%string.
Proof. intros H. unfold extract, first_item. by rewrite H. Qed.

(** The dictionary of line 71 has the field names for keys, so that
    [writerow] accepts it and puts its values in the order of the header. *)
Lemma writerow_five {Exn} (t d v l c : string) :
  writerow (Exn:=Exn)
    ({[ "title" := t; "upload_date" := d; "views" := v; "likes" := l;
        "comments" := c ]} : gmap string string)%string
  = inr [t; d; v; l; c].
Proof.
  unfold writerow. destruct (decide _) as [_|Hno].
  - unfold fieldnames. simpl. by simplify_map_eq.
  - destruct Hno. rewrite !dom_insert_L, dom_singleton_L.
    unfold fieldnames. simpl. set_solver.
Qed.

(** Case analysis on the five look-ups, in the order of the script. *)
Ltac lookups v :=
  unfold getitem;
  destruct (snippet v !! "title"%string) as [?t|] eqn:?Etitle; cbn;
  [destruct (snippet v !! "publishedAt"%string) as [?d|] eqn:?Edate; cbn;
   [destruct (statistics v !! "viewCount"%string) as [?n|] eqn:?Eviews; cbn;
    [destruct (statistics v !! "likeCount"%string) as [?l|] eqn:?Elikes; cbn;
     [destruct (statistics v !! "commentCount"%string) as [?c|] eqn:?Ecomments;
      cbn; [rewrite ?writerow_five|]|]|]|]|].


(** A row is written for a response exactly when the response has a first
    item with the five keys, and it is then the row of the five values in
    the order of the header. *)
Theorem row_iff_complete {Exn} (r : Response) (row : list string) :
  extract (Exn:=Exn) r ≫= writerow = inr row <-> complete r /\ row = row_of r.
Proof.
  split.
  - destruct (items r) as [|v vs] eqn:Hr.
    { rewrite (extract_nil r Hr). discriminate. }
    rewrite (extract_cons r v vs Hr). lookups v; try discriminate.
    intros [= <-]. split.
    + exists v, vs. rewrite Etitle, Edate, Eviews, Elikes, Ecomments. eauto 10.
    + unfold row_of. by rewrite Hr, Etitle, Edate, Eviews, Elikes, Ecomments.
  - intros [(v & vs & Hr & [t Ht] & [d Hd] & [n Hn] & [l Hl] & [c Hc]) ->].
    rewrite (extract_cons r v vs Hr). unfold getitem, row_of.
    rewrite Hr, Ht, Hd, Hn, Hl, Hc. cbn. apply writerow_five.
Qed.

Section Loop.
Context {Exn Srv : Type}.
Variable videos_list : Srv -> string -> Srv * (Exn + Response).

Local Abbreviation state := (state Srv).
Local Abbreviation body := (body videos_list).
Local Abbreviation for_each := (for_each videos_list).
Local Abbreviation export := (export videos_list).
Local Abbreviation answers := (answers videos_list).

Implicit Types (st : state) (s : Srv) (ids : list string) (r : Response).

Lemma body_row st video_id s' r :
  videos_list (remote st) video_id = (s', inr r) ->
  complete r ->
  body video_id st =
    (State (csv_file st ++ [row_of r]) (requested st ++ [video_id]) s', None).
Proof.
  intros Hcall Hr. unfold body. rewrite Hcall.
  by rewrite (proj2 (row_iff_complete (Exn:=Exn) r (row_of r)) (conj Hr eq_refl)).
Qed.

Lemma body_api_error st video_id s' e :
  videos_list (remote st) video_id = (s', inl e) ->
  body video_id st =
    (State (csv_file st) (requested st ++ [video_id]) s', Some (ApiError e)).
Proof. intros Hcall. unfold body. by rewrite Hcall. Qed.

Lemma body_no_row st video_id s' r e :
  videos_list (remote st) video_id = (s', inr r) ->
  extract r ≫= writerow = inl e ->
  body video_id st =
    (State (csv_file st) (requested st ++ [video_id]) s', Some e).
Proof. intros Hcall He. unfold body. by rewrite Hcall, He. Qed.

(** One identifier: one request, and one row of five fields or none. *)
Lemma body_cases st video_id :
  requested (body video_id st).1 = requested st ++ [video_id]
  /\ (((body video_id st).2 = None
       /\ exists row, csv_file (body video_id st).1 = csv_file st ++ [row]
                      /\ length row = 5)
      \/ (is_Some (body video_id st).2
          /\ csv_file (body video_id st).1 = csv_file st)).
Proof.
  unfold body.
  destruct (videos_list (remote st) video_id) as [s' [e|r]]; simpl.
  { split; [done|]. right. by split; [eexists|]. }
  destruct (extract r ≫= writerow) as [e|row] eqn:E; simpl.
  { split; [done|]. right. by split; [eexists|]. }
  split; [done|]. left. split; [done|]. exists row. split; [done|].
  apply row_iff_complete in E as [(v & vs & Hr & _) ->].
  unfold row_of. by rewrite Hr.
Qed.

Lemma for_each_app ids1 ids2 st :
  for_each (ids1 ++ ids2) st =
  match for_each ids1 st with
  | (st', None) => for_each ids2 st'
  | (st', Some e) => (st', Some e)
  end.
Proof.
  revert st. induction ids1 as [|id ids1 IH]; intros st; simpl.
  - done.
  - destruct (body id st) as [st' [e|]]; [done|apply IH].
Qed.

(** What the loop adds to the file and to the requests, whatever the
    service does. *)
Lemma for_each_adds ids : forall st,
  exists rows asked,
    csv_file (for_each ids st).1 = csv_file st ++ rows
    /\ requested (for_each ids st).1 = requested st ++ asked
    /\ asked `prefix_of` ids
    /\ Forall (fun row => length row = 5) rows
    /\ match (for_each ids st).2 with
       | None => asked = ids /\ length rows = length ids
       | Some _ => length asked = S (length rows)
       end.
Proof.
  induction ids as [|id ids IH]; intros st; simpl.
  - exists [], []. by rewrite !app_nil_r.
  - destruct (body_cases st id) as [Hreq Hcases].
    destruct (body id st) as [st1 [e|]] eqn:Hb; simpl in *.
    + destruct Hcases as [[? _]|[_ Hfile]]; [done|].
      exists [], [id]. rewrite app_nil_r.
      split; [done|]. split; [done|].
      split; [apply prefix_cons, prefix_nil|]. by split.
    + destruct Hcases as [[_ (row & Hfile & Hlen)]|[[? ?] _]]; [|done].
      destruct (IH st1) as (rows & asked & H1 & H2 & H3 & H4 & H5).
      exists (row :: rows), (id :: asked).
      rewrite H1, H2, Hfile, Hreq, <- !app_assoc. simpl.
      split; [done|]. split; [done|].
      split; [by apply prefix_cons|]. split; [by constructor|].
      destruct (for_each ids st1).2; simpl; [lia|].
      by destruct H5 as [-> ->].
Qed.

Lemma for_each_answers ids : forall rs st s',
  answers (remote st) ids rs s' ->
  Forall complete rs ->
  for_each ids st =
    (State (csv_file st ++ map row_of rs) (requested st ++ ids) s', None).
Proof.
  induction ids as [|id ids IH]; intros [|r rs] st s' Hans Hrs;
    simpl in Hans; try done.
  - subst s'. simpl. rewrite !app_nil_r. by destruct st.
  - destruct Hans as (s1 & Hcall & Hans).
    apply Forall_cons in Hrs as [Hr Hrs].
    simpl. rewrite (body_row st id s1 r Hcall Hr).
    rewrite (IH rs (State (csv_file st ++ [row_of r]) (requested st ++ [id]) s1)
               s' Hans Hrs). simpl.
    by rewrite <- !app_assoc.
Qed.

(** Whatever the service does, the file starts with the header, every row
    after it has the five fields, the requests made are the first
    identifiers of the list in its order, and there is one row per request
    but for a request that ended in an exception; the success message is
    printed exactly when no exception came, and then every identifier was
    asked for and has its row. *)
Theorem export_accounts ids s :
  exists rows,
    file (export ids s) = fieldnames :: rows
    /\ Forall (fun row => length row = length fieldnames) rows
    /\ requests (export ids s) `prefix_of` ids
    /\ match raised (export ids s) with
       | None =>
           requests (export ids s) = ids
           /\ length rows = length ids
           /\ stdout (export ids s) = ["CSV file created successfully!"%string]
       | Some _ =>
           length (requests (export ids s)) = S (length rows)
           /\ stdout (export ids s) = []
       end.
Proof.
  unfold export.
  destruct (for_each_adds ids (State [fieldnames] [] s))
    as (rows & asked & H1 & H2 & H3 & H4 & H5).
  destruct (for_each ids (State [fieldnames] [] s)) as [st err]; simpl in *.
  exists rows. rewrite H1, H2. repeat split; [done..|].
  destruct err; [done|]. by destruct H5 as [-> ->].
Qed.

(** When the service answers every request with a response that has the
    five keys, the file is the header and one row per identifier, in the
    order of the list and with a row for each repetition of an identifier;
    every identifier is asked for once per occurrence; and the message is
    printed. *)
Theorem export_writes_every_row ids rs s s' :
  answers s ids rs s' ->
  Forall complete rs ->
  export ids s =
    Report (fieldnames :: map row_of rs) ids
           ["CSV file created successfully!"%string] None s'.
Proof.
  intros Hans Hrs. unfold export.
  by rewrite (for_each_answers ids rs (State [fieldnames] [] s) s' Hans Hrs).
Qed.

(** When a request fails, by an exception of the service or by a response
    without item or without one of the keys, the export ends there with
    that exception: the file keeps the header and the rows of the
    identifiers before it, the identifiers after it are never asked for,
    and the message is not printed. *)
Theorem export_stops_at_first_failure done_ids bad rest rs s s1 s2 reply err :
  answers s done_ids rs s1 ->
  Forall complete rs ->
  videos_list s1 bad = (s2, reply) ->
  (exists e, reply = inl e /\ err = ApiError e)
  \/ (exists r, reply = inr r /\ extract r ≫= writerow = inl err) ->
  export (done_ids ++ bad :: rest) s =
    Report (fieldnames :: map row_of rs) (done_ids ++ [bad]) [] (Some err) s2.
Proof.
  intros Hans Hrs Hcall Hfail. unfold export.
  rewrite for_each_app.
  rewrite (for_each_answers done_ids rs (State [fieldnames] [] s) s1 Hans Hrs).
  simpl.
  destruct Hfail as [(e & -> & ->)|(r & -> & He)].
  - by rewrite (body_api_error (State _ _ s1) bad s2 e Hcall).
  - by rewrite (body_no_row (State _ _ s1) bad s2 r err Hcall He).
Qed.
End Loop.
End VideosFacts.

(** ** Lines 13-38: from the channel to the printed list *)

Section HarvestFacts.
Context {Exn Srv : Type}.
Variable channels_list : Srv -> string -> Srv * (Exn + Channels.Response).
Variable playlistitems_list : Srv -> string -> option string -> Srv * reply Exn.

Local Abbreviation harvest := (harvest channels_list playlistitems_list).
Local Abbreviation pages_for :=
  (fun (pid : string) (st : Srv) (tok : option string) =>
     playlistitems_list st pid tok).
Local Abbreviation uploads_of :=
  (fun it : Channels.Item =>
     Channels.uploads (Channels.relatedPlaylists (Channels.contentDetails it))).

Implicit Types (s : Srv) (fuel : nat) (it : Channels.Item).

Lemma harvest_reached fuel channel_id s s' resp it others :
  channels_list s channel_id = (s', inr resp) ->
  Channels.items resp = it :: others ->
  harvest fuel channel_id s =
    Reached (uploads_of it) (run (pages_for (uploads_of it)) fuel s').
Proof.
  intros Hcall Hit. unfold harvest, Channels.playlist_id.
  by rewrite Hcall, Hit.
Qed.

(** The pages served in turn, seen from the start of the loop. *)
Lemma run_serves (execute : Srv -> option string -> Srv * reply Exn)
    (ps : list Page) (final : Page) s :
  Forall (fun p => truthy (nextPageToken p) = true) ps ->
  truthy (nextPageToken final) = false ->
  serves execute s None (ps ++ [final]) ->
  pc (run execute (S (length ps)) s) = DONE
  /\ video_ids (run execute (S (length ps)) s) =
       concat (map page_ids (ps ++ [final]))
  /\ length (calls (run execute (S (length ps)) s)) = S (length ps).
Proof.
  intros Hps Hfinal Hsrv.
  pose proof (iter_serves execute ps final (init s) eq_refl Hps Hfinal Hsrv) as H.
  cbv zeta in H.
  change (Nat.iter (S (length ps)) (iteration execute) (init s))
    with (run execute (S (length ps)) s) in H.
  destruct H as (H1 & H2 & _ & H4). by repeat split.
Qed.


(** Whatever line 38 prints is the list of the identifiers of the pages
    received for one playlist, the uploads of the first channel of the
    look-up's response, put end to end; and a larger budget prints the
    same. *)
Theorem printed_is_uploads fuel channel_id s ids :
  printed (harvest fuel channel_id s) = Some ids ->
  exists s' resp it others,
    channels_list s channel_id = (s', inr resp)
    /\ Channels.items resp = it :: others
    /\ collect (pages_for (uploads_of it)) fuel s' = Some (Returned ids)
    /\ ids = concat (map page_ids
               (pages_of (calls (run (pages_for (uploads_of it)) fuel s'))))
    /\ forall fuel', fuel <= fuel' ->
         printed (harvest fuel' channel_id s) = Some ids.
Proof.
  intros Hpr.
  destruct (channels_list s channel_id) as [s' [e0|resp]] eqn:Hcall.
  { unfold harvest in Hpr. by rewrite Hcall in Hpr. }
  destruct (Channels.items resp) as [|it others] eqn:Hit.
  { unfold harvest, Channels.playlist_id in Hpr. by rewrite Hcall, Hit in Hpr. }
  exists s', resp, it, others. split; [done|]. split; [done|].
  rewrite (harvest_reached fuel channel_id s s' resp it others Hcall Hit) in Hpr.
  simpl in Hpr. unfold collect.
  destruct (result (run (pages_for (uploads_of it)) fuel s'))
    as [[ids'|e]|] eqn:Hres; try discriminate.
  injection Hpr as ->.
  assert (Hpc : pc (run (pages_for (uploads_of it)) fuel s') = DONE
                /\ video_ids (run (pages_for (uploads_of it)) fuel s') = ids).
  { unfold result in Hres.
    destruct (pc (run (pages_for (uploads_of it)) fuel s')); try discriminate.
    by injection Hres as ->. }
  destruct Hpc as [Hpc Hids].
  split; [done|]. split; [by rewrite <- Hids, run_video_ids|].
  intros fuel' Hle.
  rewrite (harvest_reached fuel' channel_id s s' resp it others Hcall Hit).
  simpl. rewrite (run_stable _ fuel fuel' s') by congruence.
  by rewrite Hres.
Qed.

(** When the look-up answers with at least one channel, and the playlist
    service, asked for the uploads of the first one, serves N pages of
    which the first N-1 carry a non-empty token and the last none, line 38
    prints the identifiers of all N pages in order, under any budget of at
    least N trips; under a smaller one the loop is still running. *)
Theorem harvest_prints_all_pages channel_id s s' resp it others ps final :
  channels_list s channel_id = (s', inr resp) ->
  Channels.items resp = it :: others ->
  Forall (fun p => exists t, nextPageToken p = Some t /\ t <> EmptyString) ps ->
  nextPageToken final = None ->
  serves (pages_for (uploads_of it)) s' None (ps ++ [final]) ->
  (forall fuel, S (length ps) <= fuel ->
     printed (harvest fuel channel_id s) =
       Some (concat (map page_ids (ps ++ [final]))))
  /\ (forall fuel, fuel < S (length ps) ->
        printed (harvest fuel channel_id s) = None).
Proof.
  intros Hcall Hit Hps Hfinal Hsrv.
  assert (Hps' : Forall (fun p => truthy (nextPageToken p) = true) ps).
  { eapply Forall_impl; [exact Hps|]. intros p. apply carries_nonempty_truthy. }
  assert (Hfinal' : truthy (nextPageToken final) = false) by (by rewrite Hfinal).
  destruct (run_serves _ ps final s' Hps' Hfinal' Hsrv) as (Hpc & Hids & Hlen).
  split; intros fuel Hfuel;
    rewrite (harvest_reached fuel channel_id s s' resp it others Hcall Hit);
    simpl; unfold result.
  - rewrite (run_stable _ (S (length ps)) fuel s') by (congruence || lia).
    by rewrite Hpc, Hids.
  - rewrite (before_halt _ (S (length ps)) fuel s'); [done|congruence|lia].
Qed.
End HarvestFacts.

(** ** Requests, pages and cursors that come back *)

Section Cursors.
Context {Exn Srv : Type}.
Variable execute : Srv -> option string -> Srv * reply Exn.

Local Abbreviation config := (config Exn Srv).
Local Abbreviation iteration := (iteration execute).
Local Abbreviation run := (run execute).
Local Abbreviation collect := (collect execute).
Local Abbreviation call_count := (call_count execute).

Implicit Types (c : config) (s : Srv) (n m i j fuel : nat) (p : Page).

Lemma pages_of_continuing (log : list (call Exn)) :
  Forall continuing log -> length (pages_of log) = length log.
Proof.
  induction 1 as [|x log (p & Hp & _) _ IH]; [done|].
  unfold pages_of in *. cbn. rewrite Hp. simpl. by rewrite IH.
Qed.

(** The loop makes one request per trip and gets one page per request,
    but for a last request that raised: the requests are never more than
    the trips, as many as the trips while the loop is running, as many as
    the pages received when it returns, and one more than the pages when it
    fails. *)
Theorem one_request_per_page fuel s :
  call_count fuel s <= fuel
  /\ match collect fuel s with
     | None =>
         call_count fuel s = fuel
         /\ length (pages_of (calls (run fuel s))) = fuel
     | Some (Returned _) =>
         call_count fuel s = length (pages_of (calls (run fuel s)))
     | Some (UpstreamError _) =>
         call_count fuel s = S (length (pages_of (calls (run fuel s))))
     end.
Proof.
  unfold call_count, collect, result.
  destruct (run_shape execute fuel s) as [Hle Hsh].
  split; [done|].
  destruct (pc (run fuel s)).
  - destruct Hsh as [Hall Hlen].
    by rewrite (pages_of_continuing _ Hall).
  - destruct Hsh as (l & x & p & -> & Hall & Hx & _).
    destruct x as [tok r]; simpl in Hx; subst r.
    rewrite pages_of_snoc_reply, !length_app, (pages_of_continuing _ Hall).
    done.
  - destruct Hsh as (l & x & -> & Hall & Hx).
    destruct x as [tok r]; simpl in Hx; subst r.
    rewrite pages_of_snoc_raise, length_app, (pages_of_continuing _ Hall).
    simpl. lia.
Qed.

(** The call logged at place [i] was made on trip [i+1], from inside the
    loop, with the token the script then held. *)
Lemma call_made_at n s i x :
  calls (run n s) !! i = Some x ->
  pc (run i s) = FETCHING /\ pageToken x = next_page_token (run i s).
Proof.
  intros Hx.
  assert (Hi : i < length (calls (run n s))) by (by eapply lookup_lt_Some).
  pose proof (run_calls_le execute n s) as Hn.
  assert (Hpc : pc (run i s) = FETCHING).
  { destruct (pc (run i s)) eqn:E; [done|exfalso..].
    all: pose proof (run_calls_le execute i s) as Hle.
    all: rewrite <- (run_stable execute i n s) in Hle by (congruence || lia).
    all: lia. }
  split; [done|].
  destruct (run_fetching_calls execute i s Hpc) as [_ Hlen].
  assert (Hnext : exists r, calls (run (S i) s) =
                    calls (run i s) ++ [Call (next_page_token (run i s)) r]).
  { rewrite run_S.
    destruct (iteration_cases execute (run i s) Hpc)
      as [(s' & e & He)|(s' & p & Hp)].
    - rewrite (iteration_raise execute _ s' e Hpc He). by eexists.
    - rewrite (iteration_reply execute _ s' p Hpc Hp). by eexists. }
  destruct Hnext as [r Hnext].
  assert (Hat : calls (run (S i) s) !! i =
                Some (Call (next_page_token (run i s)) r)).
  { rewrite Hnext. by apply list_lookup_middle. }
  pose proof (run_calls_prefix execute (S i) n s ltac:(lia)) as Hpre.
  rewrite (prefix_lookup_Some _ _ _ _ Hat Hpre) in Hx.
  by injection Hx as <-.
Qed.

(** With a reply that depends on the token alone, phase and token after a
    trip depend on phase and token before it. *)
Lemma pure_iteration_agree (f : option string -> reply Exn) c1 c2 :
  (forall st tok, snd (execute st tok) = f tok) ->
  pc c1 = pc c2 -> next_page_token c1 = next_page_token c2 ->
  pc (iteration c1) = pc (iteration c2)
  /\ next_page_token (iteration c1) = next_page_token (iteration c2).
Proof.
  intros Hf Hpc Htok.
  destruct (pc c1) eqn:H1; symmetry in Hpc;
    [|by rewrite !iteration_halted by congruence; split; congruence..].
  pose proof (Hf (srv c1) (next_page_token c1)) as E1.
  pose proof (Hf (srv c2) (next_page_token c2)) as E2.
  destruct (execute (srv c1) (next_page_token c1)) as [s1 r1] eqn:X1.
  destruct (execute (srv c2) (next_page_token c2)) as [s2 r2] eqn:X2.
  simpl in E1, E2.
  assert (r1 = r2) as <- by congruence.
  destruct r1 as [e|p].
  - rewrite (iteration_raise execute c1 s1 e H1 X1).
    rewrite (iteration_raise execute c2 s2 e Hpc X2). by split.
  - rewrite (iteration_reply execute c1 s1 p H1 X1).
    rewrite (iteration_reply execute c2 s2 p Hpc X2). by split.
Qed.

Lemma pure_iter_agree (f : option string -> reply Exn) c1 c2 m :
  (forall st tok, snd (execute st tok) = f tok) ->
  pc c1 = pc c2 -> next_page_token c1 = next_page_token c2 ->
  pc (Nat.iter m iteration c1) = pc (Nat.iter m iteration c2)
  /\ next_page_token (Nat.iter m iteration c1) =
     next_page_token (Nat.iter m iteration c2).
Proof.
  intros Hf Hpc Htok. induction m as [|m [IH1 IH2]]; [done|].
  simpl. by eapply pure_iteration_agree.
Qed.

(** The loop does not notice a cursor that comes back. With a service
    whose reply depends on the token alone, if two requests of a run were
    made with the same token then the loop never ends: after any number of
    trips it is still running and has made as many requests. *)
Theorem cursor_cycle_never_returns (f : option string -> reply Exn) n s i j x y :
  (forall st tok, snd (execute st tok) = f tok) ->
  i < j ->
  calls (run n s) !! i = Some x ->
  calls (run n s) !! j = Some y ->
  pageToken x = pageToken y ->
  forall fuel, collect fuel s = None /\ call_count fuel s = fuel.
Proof.
  intros Hf Hij Hx Hy Hxy.
  destruct (call_made_at n s i x Hx) as [Hpi Hti].
  destruct (call_made_at n s j y Hy) as [Hpj Htj].
  assert (Hshift : forall m, pc (run (m + i) s) = pc (run (m + j) s)).
  { intros m. rewrite !run_add.
    apply (pure_iter_agree f); [done|congruence|congruence]. }
  assert (Hall : forall k, pc (run k s) = FETCHING).
  { intros k. induction k as [k IH] using lt_wf_ind.
    destruct (Nat.le_gt_cases k j) as [Hle|Hgt].
    - by apply (run_fetching_before execute k j s).
    - replace k with ((k - j) + j) by lia.
      rewrite <- Hshift. apply IH. lia. }
  intros fuel. unfold collect, call_count, result.
  rewrite (Hall fuel).
  by destruct (run_fetching_calls execute fuel s (Hall fuel)) as [_ ->].
Qed.
End Cursors.

(** ** The rest of the script at work on concrete services *)

(** A complete response gives its row, in the order of the header. *)
Lemma row_iff_complete_witness :
  Videos.complete
    {| Videos.items := [Videos.video "One" "2020-01-01" "10" "2" "1"] |}
  /\ ["One"; "2020-01-01"; "10"; "2"; "1"]%string =
     Videos.row_of
       {| Videos.items := [Videos.video "One" "2020-01-01" "10" "2" "1"] |}.
Proof.
  exact (proj1 (VideosFacts.row_iff_complete (Exn:=string)
                  {| Videos.items :=
                       [Videos.video "One" "2020-01-01" "10" "2" "1"] |}
                  ["One"; "2020-01-01"; "10"; "2"; "1"]%string)
               eq_refl).
Defined.


(** An export in which the second of three requests raises. *)
Lemma export_accounts_witness :
  exists rows,
    Videos.file (Videos.export Videos.catalogue ["v1"; "down"; "v2"]%string 0) =
      Videos.fieldnames :: rows
    /\ Forall (fun row => length row = length Videos.fieldnames) rows
    /\ Videos.requests (Videos.export Videos.catalogue ["v1"; "down"; "v2"]%string 0)
         `prefix_of` ["v1"; "down"; "v2"]%string
    /\ length (Videos.requests
                 (Videos.export Videos.catalogue ["v1"; "down"; "v2"]%string 0)) =
         S (length rows)
    /\ Videos.stdout (Videos.export Videos.catalogue ["v1"; "down"; "v2"]%string 0)
         = [].
Proof.
  destruct (VideosFacts.export_accounts Videos.catalogue
              ["v1"; "down"; "v2"]%string 0) as (rows & H1 & H2 & H3 & H4).
  exists rows. split; [exact H1|]. split; [exact H2|]. split; [exact H3|].
  exact H4.
Defined.

(** Three identifiers, one of them twice: three requests and three rows. *)
Lemma export_writes_every_row_witness :
  Videos.answers Videos.catalogue 0 ["v1"; "v2"; "v1"]%string
    [{| Videos.items := [Videos.video "One" "2020-01-01" "10" "2" "1"] |};
     {| Videos.items := [Videos.video "Two" "2020-02-02" "20" "4" "3"] |};
     {| Videos.items := [Videos.video "One" "2020-01-01" "10" "2" "1"] |}] 3
  /\ Forall Videos.complete
       [{| Videos.items := [Videos.video "One" "2020-01-01" "10" "2" "1"] |};
        {| Videos.items := [Videos.video "Two" "2020-02-02" "20" "4" "3"] |};
        {| Videos.items := [Videos.video "One" "2020-01-01" "10" "2" "1"] |}]
  /\ Videos.export Videos.catalogue ["v1"; "v2"; "v1"]%string 0 =
       Videos.Report
         [Videos.fieldnames;
          ["One"; "2020-01-01"; "10"; "2"; "1"]%string;
          ["Two"; "2020-02-02"; "20"; "4"; "3"]%string;
          ["One"; "2020-01-01"; "10"; "2"; "1"]%string]
         ["v1"; "v2"; "v1"]%string
         ["CSV file created successfully!"%string] None 3.
Proof.
  assert (H1 : Videos.answers Videos.catalogue 0 ["v1"; "v2"; "v1"]%string
    [{| Videos.items := [Videos.video "One" "2020-01-01" "10" "2" "1"] |};
     {| Videos.items := [Videos.video "Two" "2020-02-02" "20" "4" "3"] |};
     {| Videos.items := [Videos.video "One" "2020-01-01" "10" "2" "1"] |}] 3).
  { simpl. eexists. split; [reflexivity|]. eexists. split; [reflexivity|].
    eexists. split; reflexivity. }
  assert (H2 : Forall Videos.complete
    [{| Videos.items := [Videos.video "One" "2020-01-01" "10" "2" "1"] |};
     {| Videos.items := [Videos.video "Two" "2020-02-02" "20" "4" "3"] |};
     {| Videos.items := [Videos.video "One" "2020-01-01" "10" "2" "1"] |}]).
  { repeat constructor; eexists _, _; (split; [reflexivity|]);
      repeat split; eexists; reflexivity. }
  split; [exact H1|]. split; [exact H2|].
  exact (VideosFacts.export_writes_every_row Videos.catalogue _ _ 0 3 H1 H2).
Defined.

(** The second of three videos hides its likes: the file keeps the header
    and the first row, and the third video is never asked for. *)
Lemma export_stops_at_first_failure_witness :
  Videos.answers Videos.catalogue 0 ["v1"%string]
    [{| Videos.items := [Videos.video "One" "2020-01-01" "10" "2" "1"] |}] 1
  /\ Videos.catalogue 1 "hidden"%string =
       (2, inr {| Videos.items := [Videos.video_without_likes] |})
  /\ Videos.export Videos.catalogue (["v1"%string] ++ "hidden"%string :: ["v2"%string]) 0 =
       Videos.Report
         [Videos.fieldnames; ["One"; "2020-01-01"; "10"; "2"; "1"]%string]
         ["v1"; "hidden"]%string [] (Some (KeyError "likeCount"%string)) 2.
Proof.
  assert (H1 : Videos.answers Videos.catalogue 0 ["v1"%string]
    [{| Videos.items := [Videos.video "One" "2020-01-01" "10" "2" "1"] |}] 1).
  { simpl. eexists. split; reflexivity. }
  assert (H2 : Forall Videos.complete
    [{| Videos.items := [Videos.video "One" "2020-01-01" "10" "2" "1"] |}]).
  { repeat constructor; eexists _, _; (split; [reflexivity|]);
      repeat split; eexists; reflexivity. }
  assert (H3 : Videos.catalogue 1 "hidden"%string =
               (2, inr {| Videos.items := [Videos.video_without_likes] |}))
    by reflexivity.
  split; [exact H1|]. split; [exact H3|].
  refine (VideosFacts.export_stops_at_first_failure Videos.catalogue
            ["v1"%string] "hidden"%string ["v2"%string] _ 0 1 2 _
            (KeyError "likeCount"%string) H1 H2 H3 _).
  right. eexists. split; reflexivity.
Defined.


(** The known channel: what is printed with a budget of five trips is
    printed with any larger one. *)
Lemma printed_is_uploads_witness :
  printed (harvest one_channel one_playlist 5 "UC1"%string 0) =
    Some ["a"; "b"; "c"]%string
  /\ (forall fuel', 5 <= fuel' ->
        printed (harvest one_channel one_playlist fuel' "UC1"%string 0) =
          Some ["a"; "b"; "c"]%string).
Proof.
  assert (H : printed (harvest one_channel one_playlist 5 "UC1"%string 0) =
              Some ["a"; "b"; "c"]%string) by reflexivity.
  split; [exact H|].
  destruct (printed_is_uploads one_channel one_playlist 5 "UC1"%string 0 _ H)
    as (s' & resp & it & others & _ & _ & _ & _ & Hmore).
  exact Hmore.
Defined.

(** The known channel and its two pages, from the look-up to the print. *)
Lemma harvest_prints_all_pages_witness :
  (forall fuel, 2 <= fuel ->
     printed (harvest one_channel one_playlist fuel "UC1"%string 0) =
       Some ["a"; "b"; "c"]%string)
  /\ (forall fuel, fuel < 2 ->
        printed (harvest one_channel one_playlist fuel "UC1"%string 0) = None).
Proof.
  refine (harvest_prints_all_pages one_channel one_playlist "UC1"%string 0 1
            _ _ [] [page ["a"; "b"]%string (Some "t1"%string)]
            (page ["c"]%string None) eq_refl eq_refl _ eq_refl _).
  - constructor; [|constructor].
    exists "t1"%string. split; [reflexivity|discriminate].
  - simpl. eexists. split; [reflexivity|]. eexists. split; [reflexivity|exact I].
Defined.

(** One request per page on the script whose second reply raises. *)
Lemma one_request_per_page_witness :
  call_count scripted 7 failing_second <= 7
  /\ call_count scripted 7 failing_second =
       S (length (pages_of (calls (run scripted 7 failing_second)))).
Proof.
  exact (one_request_per_page scripted 7 failing_second).
Defined.

(** Two pages that name each other: the second and the fourth request
    carry the same token, and the loop never ends. *)
Lemma cursor_cycle_never_returns_witness :
  (forall st tok, snd (stateless ping_pong st tok) = ping_pong tok)
  /\ 1 < 3
  /\ calls (run (stateless ping_pong) 4 0) !! 1 =
       Some (Call (Some "p2"%string)
               (Reply (page ["y"]%string (Some "p1"%string))))
  /\ calls (run (stateless ping_pong) 4 0) !! 3 =
       Some (Call (Some "p2"%string)
               (Reply (page ["y"]%string (Some "p1"%string))))
  /\ (forall fuel,
        collect (stateless ping_pong) fuel 0 = None
        /\ call_count (stateless ping_pong) fuel 0 = fuel).
Proof.
  assert (H1 : forall st tok, snd (stateless ping_pong st tok) = ping_pong tok)
    by reflexivity.
  assert (H2 : 1 < 3) by lia.
  assert (H3 : calls (run (stateless ping_pong) 4 0) !! 1 =
               Some (Call (Some "p2"%string)
                       (Reply (page ["y"]%string (Some "p1"%string)))))
    by reflexivity.
  assert (H4 : calls (run (stateless ping_pong) 4 0) !! 3 =
               Some (Call (Some "p2"%string)
                       (Reply (page ["y"]%string (Some "p1"%string)))))
    by reflexivity.
  split; [exact H1|]. split; [exact H2|]. split; [exact H3|].
  split; [exact H4|].
  exact (cursor_cycle_never_returns (stateless ping_pong) ping_pong 4 0 1 3
           _ _ H1 H2 H3 H4 eq_refl).
Defined.
